(** * Shadowing: screen-region translation helpers

  A shallow embedding of the translation dispatcher
  ([TranslationHelper.js]), the fast translation helper
  ([FastTranslationHelper.js]) and the region monitor
  ([AreaSelectionHelper.ts]), with the properties of their caches,
  provider dispatch, subtitle classifier and polling loop. *)

From Stdlib Require Import String Ascii.
From Stdlib Require Import List ZArith QArith Qround Lia Bool Arith.
From Stdlib Require Import Permutation Sorted.
Import ListNotations.

Set Implicit Arguments.
Open Scope nat_scope.

(* ===================================================================== *)
(** * Part I: definitions *)
(* ===================================================================== *)

(** ** JavaScript values used by the helpers *)

Module JS.

(** A JavaScript string is a sequence of UTF-16 code units. *)
Definition jsstring := list N.

(** An ASCII literal of the source. *)
Definition lit (s : string) : jsstring :=
map N_of_ascii (list_ascii_of_string s).

Arguments lit s%_string.

Fixpoint str_eqb (a b : jsstring) : bool :=
match a, b with
| [], [] => true
| x :: a', y :: b' => N.eqb x y && str_eqb a' b'
| _, _ => false
end.

(** [x || d] on an optional string: [undefined] and [""] are falsy. *)
Definition or_default (x : option jsstring) (d : jsstring) : jsstring :=
match x with
| Some (c :: s) => c :: s
| _ => d
end.

(** [a > b] on numbers. *)
Definition Qgtb (a b : Q) : bool := negb (Qle_bool a b).

(** [Array.prototype.sort(cmp)]: a stable sort; [cmp a b] is the number
  returned by the comparator, negative when [a] goes first. *)
Section Sort.
Variable A : Type.
Variable cmp : A -> A -> Z.

Fixpoint insert (x : A) (l : list A) : list A :=
  match l with
  | [] => [x]
  | y :: l' =>
      if (0 <? cmp x y)%Z then y :: insert x l' else x :: y :: l'
  end.

Fixpoint sort (l : list A) : list A :=
  match l with
  | [] => []
  | x :: l' => insert x (sort l')
  end.
End Sort.

(** The comparator [(a, b) => f(a) - f(b)] and the order it sorts into. *)
Definition keyCmp (A : Type) (f : A -> Z) (a b : A) : Z := (f a - f b)%Z.
Definition keyLe (A : Type) (f : A -> Z) (a b : A) : Prop := (f a <= f b)%Z.

(** [Map<string, V>]: entries in insertion order, keys unique. *)
Section MapModel.
Variable V : Type.

Definition Map := list (jsstring * V).

Definition size (m : Map) : nat := length m.

Definition keys (m : Map) : list jsstring := map fst m.

Fixpoint get (k : jsstring) (m : Map) : option V :=
  match m with
  | [] => None
  | (k', v) :: m' => if str_eqb k k' then Some v else get k m'
  end.

Definition has (k : jsstring) (m : Map) : bool :=
  match get k m with Some _ => true | None => false end.

(** [set] keeps the position of an existing key and appends a new one. *)
Fixpoint set (k : jsstring) (v : V) (m : Map) : Map :=
  match m with
  | [] => [(k, v)]
  | (k', v') :: m' =>
      if str_eqb k k' then (k, v) :: m' else (k', v') :: set k v m'
  end.

Fixpoint delete (k : jsstring) (m : Map) : Map :=
  match m with
  | [] => []
  | (k', v') :: m' =>
      if str_eqb k k' then m' else (k', v') :: delete k m'
  end.

(** [m.keys().next().value] *)
Definition first_key (m : Map) : option jsstring :=
  match m with
  | [] => None
  | (k, _) :: _ => Some k
  end.

Definition clear (m : Map) : Map := [].
End MapModel.

End JS.

(** ** Regular expressions of the subtitle classifier *)

Module Regex.
Import JS.

(** The fragment of the regular expressions that the source uses:
    classes of code units, concatenation, alternation, iteration. *)
Inductive regex : Type :=
| Void : regex
| Eps : regex
| Class : (N -> bool) -> regex
| Cat : regex -> regex -> regex
| Alt : regex -> regex -> regex
| Star : regex -> regex.

Fixpoint nullable (r : regex) : bool :=
  match r with
  | Void => false
  | Eps => true
  | Class _ => false
  | Cat a b => nullable a && nullable b
  | Alt a b => nullable a || nullable b
  | Star _ => true
  end.

Definition cat (a b : regex) : regex :=
  match a, b with
  | Void, _ => Void
  | _, Void => Void
  | Eps, _ => b
  | _, Eps => a
  | _, _ => Cat a b
  end.

Definition alt (a b : regex) : regex :=
  match a, b with
  | Void, _ => b
  | _, Void => a
  | _, _ => Alt a b
  end.

(** Brzozowski derivative with respect to one code unit. *)
Fixpoint deriv (c : N) (r : regex) : regex :=
  match r with
  | Void => Void
  | Eps => Void
  | Class p => if p c then Eps else Void
  | Cat a b =>
      if nullable a
      then alt (cat (deriv c a) b) (deriv c b)
      else cat (deriv c a) b
  | Alt a b => alt (deriv c a) (deriv c b)
  | Star a => cat (deriv c a) (Star a)
  end.

Fixpoint matches (r : regex) (s : jsstring) : bool :=
  match s with
  | [] => nullable r
  | c :: s' => matches (deriv c r) s'
  end.

(** A pattern literal [/^body$/]: the anchors may be absent. *)
Record pattern : Type := Pattern {
  anchoredStart : bool;
  body : regex;
  anchoredEnd : bool
}.

Definition anything : regex := Star (Class (fun _ => true)).

(** [pattern.test(text)] for a pattern without the [g] flag. *)
Definition test (p : pattern) (text : jsstring) : bool :=
  matches
    (Cat (if anchoredStart p then Eps else anything)
         (Cat (body p) (if anchoredEnd p then Eps else anything)))
    text.

(** Character classes. *)
Definition code (a : ascii) : N := N_of_ascii a.
Definition range (lo hi : ascii) (c : N) : bool :=
  (code lo <=? c)%N && (c <=? code hi)%N.
Definition one (a : ascii) (c : N) : bool := (c =? code a)%N.
Definition unit (u : N) (c : N) : bool := (c =? u)%N.
Definition oneOf (s : string) (c : N) : bool :=
  existsb (fun a => (c =? code a)%N) (list_ascii_of_string s).
Definition either (p q : N -> bool) (c : N) : bool := p c || q c.
Definition notIn (p : N -> bool) (c : N) : bool := negb (p c).

(** [.]: any code unit except the line terminators. *)
Definition lineTerminator (c : N) : bool :=
  (c =? 10)%N || (c =? 13)%N || (c =? 8232)%N || (c =? 8233)%N.
Definition dot : regex := Class (notIn lineTerminator).

(** [\d] and [\s]. *)
Definition digit : N -> bool := range "0" "9".
Definition space (c : N) : bool :=
  ((9 <=? c) && (c <=? 13))%N || (c =? 32)%N || (c =? 160)%N
  || (c =? 5760)%N || ((8192 <=? c) && (c <=? 8202))%N
  || (c =? 8232)%N || (c =? 8233)%N || (c =? 8239)%N
  || (c =? 8287)%N || (c =? 12288)%N || (c =? 65279)%N.

(** An ASCII letter under the [i] flag matches both of its cases. *)
Definition lower (c : N) : N :=
  if ((65 <=? c) && (c <=? 90))%N then (c + 32)%N else c.
Definition oneI (a : ascii) (c : N) : bool := (lower c =? lower (code a))%N.

Definition chr (a : ascii) : regex := Class (one a).
Definition chrI (a : ascii) : regex := Class (oneI a).
Definition plus (r : regex) : regex := Cat r (Star r).
Definition opt (r : regex) : regex := Alt r Eps.
Arguments range (lo hi)%_char c.
Arguments one a%_char c.
Arguments oneI a%_char c.
Arguments oneOf s%_string c.
Arguments chr a%_char.
Arguments chrI a%_char.
Fixpoint seq (rs : list regex) : regex :=
  match rs with
  | [] => Eps
  | [r] => r
  | r :: rs' => Cat r (seq rs')
  end.

End Regex.

(** ** Subtitle pattern detection ([FastTranslationHelper.js]) *)

Module SubtitleDetection.
Import JS Regex.

Inductive SubtitleType : Type :=
| dialogue | narrator | action | song | unknown.

Record SubtitlePattern : Type := {
  isSubtitle : bool;
  subtitleType : SubtitleType;
  confidence : Q
}.

Definition upper : regex := Class (range "A" "Z").
Definition upperOrSpace : regex := Class (either (range "A" "Z") space).
Definition spaces : regex := Star (Class space).
Definition quote : regex := Class (either (unit 34) (one "'")).
Definition notChr (a : ascii) : regex := Class (notIn (one a)).
Arguments notChr a%_char.
Definition anchored (rs : list regex) : pattern := Pattern true (seq rs) true.

(** [subtitlePatterns], in the order of the object's keys. *)
Definition subtitlePatterns : list (SubtitleType * list pattern) :=
  [ (dialogue,
      [ (* /^[A-Z][a-z].*[.!?]$/ *)
        anchored [upper; Class (range "a" "z"); Star dot; Class (oneOf ".!?")];
        (* /^["'].*["']$/ *)
        anchored [quote; Star dot; quote];
        (* /^-\s*[A-Z].*$/ *)
        anchored [chr "-"; spaces; upper; Star dot];
        (* /^[A-Z\s]+:\s*.*$/ *)
        anchored [plus upperOrSpace; chr ":"; spaces; Star dot] ]);
    (narrator,
      [ (* /^\([^)]+\)$/ *)
        anchored [chr "("; plus (notChr ")"); chr ")"];
        (* /^\[[^\]]+\]$/ *)
        anchored [chr "["; plus (notChr "]"); chr "]"];
        (* /^[A-Z\s]+:$/ *)
        anchored [plus upperOrSpace; chr ":"] ]);
    (action,
      [ (* /^\*[^*]+\*$/ *)
        anchored [chr "*"; plus (notChr "*"); chr "*"];
        (* /^<[^>]+>$/ *)
        anchored [chr "<"; plus (notChr ">"); chr ">"];
        (* /^\([^)]*sounds?[^)]*\)$/i *)
        anchored [chr "("; Star (notChr ")");
                  chrI "s"; chrI "o"; chrI "u"; chrI "n"; chrI "d";
                  opt (chrI "s"); Star (notChr ")"); chr ")"] ]);
    (song,
      [ (* U+266A ... U+266A *)
        anchored [Class (unit 9834); Star dot; Class (unit 9834)];
        (* U+266B ... U+266B *)
        anchored [Class (unit 9835); Star dot; Class (unit 9835)];
        (* /^~.*~$/ *)
        anchored [chr "~"; Star dot; chr "~"] ]) ].

(** The two nested [for] loops: the first pattern that matches decides. *)
Fixpoint firstMatch (entries : list (SubtitleType * list pattern))
    (text : jsstring) : option SubtitleType :=
  match entries with
  | [] => None
  | (type, patterns) :: rest =>
      if existsb (fun p => test p text) patterns then Some type
      else firstMatch rest text
  end.

(** /[.!?]$/, /^https?:\/\//, /^\d+[\d\s:,.-]*$/ *)
Definition endsWithPunctuation : pattern :=
  Pattern false (Class (oneOf ".!?")) true.
Definition isUrl : pattern :=
  Pattern true
    (seq [chr "h"; chr "t"; chr "t"; chr "p"; opt (chr "s");
          chr ":"; chr "/"; chr "/"]) false.
Definition isNumeric : pattern :=
  anchored [plus (Class digit);
            Star (Class (either digit (either space (oneOf ":,.-"))))].

Definition detectSubtitlePattern (text : jsstring) : SubtitlePattern :=
  match firstMatch subtitlePatterns text with
  | Some type =>
      {| isSubtitle := true; subtitleType := type; confidence := 9 # 10 |}
  | None =>
      let hasSubtitleCharacteristics :=
        (5 <? List.length text) && (List.length text <? 200)
        && test endsWithPunctuation text
        && negb (test isUrl text)
        && negb (test isNumeric text) in
      {| isSubtitle := hasSubtitleCharacteristics;
         subtitleType := unknown;
         confidence := if hasSubtitleCharacteristics then 6 # 10 else 1 # 10 |}
  end.

End SubtitleDetection.

(** ** The fast translation helper ([FastTranslationHelper.js]) *)

Module FastTranslationHelper.
Import JS.

Record FastTranslationResult : Type := {
  originalText : jsstring;
  translatedText : jsstring;
  confidence : Q;
  latency : Z;
  provider : jsstring;
  detectedLanguage : jsstring;
  isSubtitle : bool;
  timestamp : Z
}.

Record CachedTranslation : Type := {
  result : FastTranslationResult;
  accessCount : Z;
  lastAccessed : Z
}.

Record PerformanceStats : Type := {
  totalTranslations : Z;
  cacheHits : Z;
  avgLatency : Q;
  modelLoadTime : Z
}.

(** What a call of a loaded translation pipeline does: it throws, or it
    returns [[{translation_text, score}]], the score possibly absent. *)
Inductive ModelRun : Type :=
| ModelThrew : ModelRun
| ModelOutput : jsstring -> option Q -> ModelRun.

(** The fields of the helper that translation reads and writes.
    [marianTranslators] holds the keys of the loaded pair models and
    [m2m100Translator] tells whether the general model is loaded.
    [clock] counts the reads of [Date.now()] and [modelCalls] lists the
    pipelines invoked so far; both are bookkeeping of the model. *)
Record state : Type := {
  translationCache : Map CachedTranslation;
  performanceStats : PerformanceStats;
  marianTranslators : list jsstring;
  m2m100Translator : bool;
  isInitialized : bool;
  clock : nat;
  modelCalls : list jsstring
}.

Definition with_cache (c : Map CachedTranslation) (st : state) : state :=
  {| translationCache := c;
     performanceStats := performanceStats st;
     marianTranslators := marianTranslators st;
     m2m100Translator := m2m100Translator st;
     isInitialized := isInitialized st;
     clock := clock st;
     modelCalls := modelCalls st |}.

Definition with_stats (p : PerformanceStats) (st : state) : state :=
  {| translationCache := translationCache st;
     performanceStats := p;
     marianTranslators := marianTranslators st;
     m2m100Translator := m2m100Translator st;
     isInitialized := isInitialized st;
     clock := clock st;
     modelCalls := modelCalls st |}.

Definition with_clock (n : nat) (st : state) : state :=
  {| translationCache := translationCache st;
     performanceStats := performanceStats st;
     marianTranslators := marianTranslators st;
     m2m100Translator := m2m100Translator st;
     isInitialized := isInitialized st;
     clock := n;
     modelCalls := modelCalls st |}.

Definition with_call (nm : jsstring) (st : state) : state :=
  {| translationCache := translationCache st;
     performanceStats := performanceStats st;
     marianTranslators := marianTranslators st;
     m2m100Translator := m2m100Translator st;
     isInitialized := isInitialized st;
     clock := clock st;
     modelCalls := modelCalls st ++ [nm] |}.

(** [supportedLanguages] *)
Definition supportedLanguages : Map jsstring :=
  map (fun l => (lit l, lit l))
    ["zh"; "en"; "ja"; "ko"; "es"; "fr"; "de"; "it"; "pt"; "ru"; "ar";
     "hi"; "th"; "vi"]%string.

(** [score || d]: an absent score and the score 0 are falsy. *)
Definition scoreOr (score : option Q) (d : Q) : Q :=
  match score with
  | Some q => if Qeq_bool q 0 then d else q
  | None => d
  end.

(** *** The cache *)

Definition byLastAccessed (a b : jsstring * CachedTranslation) : Z :=
  (lastAccessed (snd a) - lastAccessed (snd b))%Z.

(** [Math.floor(MAX_CACHE_SIZE * 0.2)]; the product of an integer below
    2^52 and the double 0.2 rounds to the fifth of the integer when that is
    whole and stays clear of the next integer otherwise. *)
Definition toRemove (MAX_CACHE_SIZE : nat) : nat := (MAX_CACHE_SIZE * 2) / 10.

Definition sortedEntries (m : Map CachedTranslation) :
    list (jsstring * CachedTranslation) :=
  sort byLastAccessed m.

(** The loop [for (i = 0; i < toRemove; i++) delete(sortedEntries[i][0])].
    It runs only when [size >= MAX_CACHE_SIZE], so every index it reads is
    within [sortedEntries]. *)
Definition victims (MAX_CACHE_SIZE : nat) (m : Map CachedTranslation) :
    list (jsstring * CachedTranslation) :=
  firstn (toRemove MAX_CACHE_SIZE) (sortedEntries m).

Definition deleteAll (vs : list (jsstring * CachedTranslation))
    (m : Map CachedTranslation) : Map CachedTranslation :=
  fold_left (fun acc e => delete (fst e) acc) vs m.

Definition evict (MAX_CACHE_SIZE : nat) (m : Map CachedTranslation) :
    Map CachedTranslation :=
  deleteAll (victims MAX_CACHE_SIZE m) m.

(** [cacheTranslation] on the map, for a capacity and a clock reading. *)
Definition cacheTranslationWith (MAX_CACHE_SIZE : nat) (key : jsstring)
    (r : FastTranslationResult) (now : Z) (m : Map CachedTranslation) :
    Map CachedTranslation :=
  let m1 := if MAX_CACHE_SIZE <=? size m then evict MAX_CACHE_SIZE m else m in
  set key {| result := r; accessCount := 1; lastAccessed := now |} m1.

Definition MAX_CACHE_SIZE : nat := 2000.

(** The environment: the system clock at its n-th reading, and the two
    kinds of translation pipelines at their n-th invocation (a pair model
    gets its pair and the text, the general model the text and the two
    languages). *)
Record Environment : Type := {
  Date_now : nat -> Z;
  marianRun : nat -> jsstring -> jsstring -> ModelRun;
  m2m100Run : nat -> jsstring -> jsstring -> jsstring -> ModelRun
}.

Section Helper.

Variable env : Environment.

Definition now (st : state) : Z * state :=
  (Date_now env (clock st), with_clock (S (clock st)) st).

Definition cacheTranslation (key : jsstring) (r : FastTranslationResult)
    (st : state) : state :=
  let '(t, st1) := now st in
  with_cache
    (cacheTranslationWith MAX_CACHE_SIZE key r t (translationCache st1)) st1.

Definition createTranslationResult (originalText translatedText
    sourceLanguage targetLanguage provider : jsstring) (confidence : Q)
    (latency : Z) (st : state) : FastTranslationResult * state :=
  let p := performanceStats st in
  let total := (totalTranslations p + 1)%Z in
  let st1 :=
    with_stats
      {| totalTranslations := total;
         cacheHits := cacheHits p;
         avgLatency := (avgLatency p + inject_Z latency) / inject_Z total;
         modelLoadTime := modelLoadTime p |} st in
  let '(t, st2) := now st1 in
  ({| originalText := originalText;
      translatedText := translatedText;
      confidence := confidence;
      latency := latency;
      provider := provider;
      detectedLanguage := sourceLanguage;
      isSubtitle := true;
      timestamp := t |}, st2).

(** The [catch] branch of [translateText]. *)
Definition translationFailed (text sourceLanguage targetLanguage : jsstring)
    (startTime : Z) (st : state) : FastTranslationResult * state :=
  let '(t, st1) := now st in
  createTranslationResult text text sourceLanguage targetLanguage
    (lit "cache") (1 # 10) (t - startTime)%Z st1.

(** The two successful branches: build the result, cache it, return it. *)
Definition translated (text translation_text sourceLanguage targetLanguage
    provider cacheKey : jsstring) (confidence : Q) (startTime : Z)
    (st : state) : FastTranslationResult * state :=
  let '(t, st1) := now st in
  let '(translationResult, st2) :=
    createTranslationResult text translation_text sourceLanguage
      targetLanguage provider confidence (t - startTime)%Z st1 in
  (translationResult, cacheTranslation cacheKey translationResult st2).

(** [`${text}|${sourceLanguage}|${targetLanguage}`] *)
Definition cacheKeyOf (text sourceLanguage targetLanguage : jsstring) :
    jsstring :=
  text ++ lit "|" ++ sourceLanguage ++ lit "|" ++ targetLanguage.

(** [cached.accessCount++; cached.lastAccessed = Date.now()] *)
Definition bump (t : Z) (cached : CachedTranslation) : CachedTranslation :=
  {| result := result cached;
     accessCount := (accessCount cached + 1)%Z;
     lastAccessed := t |}.

Definition translateText (text sourceLanguage targetLanguage : jsstring)
    (st : state) : FastTranslationResult * state :=
  let '(startTime, st0) := now st in
  let cacheKey := cacheKeyOf text sourceLanguage targetLanguage in
  match get cacheKey (translationCache st0) with
  | Some cached =>
      let '(t, st1) := now st0 in
      let bumped := bump t cached in
      let p := performanceStats st1 in
      let st2 :=
        with_stats
          {| totalTranslations := totalTranslations p;
             cacheHits := (cacheHits p + 1)%Z;
             avgLatency := avgLatency p;
             modelLoadTime := modelLoadTime p |}
          (with_cache (set cacheKey bumped (translationCache st1)) st1) in
      let '(t', st3) := now st2 in
      let r := result cached in
      ({| originalText := originalText r;
          translatedText := translatedText r;
          confidence := confidence r;
          latency := (t' - startTime)%Z;
          provider := lit "cache";
          detectedLanguage := detectedLanguage r;
          isSubtitle := isSubtitle r;
          timestamp := timestamp r |}, st3)
  | None =>
      let marianPair := sourceLanguage ++ lit "-" ++ targetLanguage in
      if existsb (str_eqb marianPair) (marianTranslators st0) then
        let run :=
          marianRun env (List.length (modelCalls st0)) marianPair text in
        let st1 := with_call marianPair st0 in
        match run with
        | ModelOutput translation_text score =>
            translated text translation_text sourceLanguage targetLanguage
              (lit "marian") cacheKey (scoreOr score (8 # 10)) startTime st1
        | ModelThrew =>
            translationFailed text sourceLanguage targetLanguage startTime st1
        end
      else if m2m100Translator st0 then
        let src_lang :=
          or_default (get sourceLanguage supportedLanguages) sourceLanguage in
        let tgt_lang :=
          or_default (get targetLanguage supportedLanguages) targetLanguage in
        let run :=
          m2m100Run env (List.length (modelCalls st0)) text src_lang tgt_lang in
        let st1 := with_call (lit "m2m100") st0 in
        match run with
        | ModelOutput translation_text score =>
            translated text translation_text sourceLanguage targetLanguage
              (lit "m2m100") cacheKey (scoreOr score (7 # 10)) startTime st1
        | ModelThrew =>
            translationFailed text sourceLanguage targetLanguage startTime st1
        end
      else
        translationFailed text sourceLanguage targetLanguage startTime st0
  end.

End Helper.

Record PerformanceReport : Type := {
  stats : PerformanceStats;
  cacheHitRate : Q;
  cacheSize : nat;
  initialized : bool
}.

Definition getPerformanceStats (st : state) : PerformanceReport :=
  let p := performanceStats st in
  {| stats := p;
     cacheHitRate :=
       inject_Z (cacheHits p) / inject_Z (Z.max (totalTranslations p) 1);
     cacheSize := size (translationCache st);
     initialized := isInitialized st |}.

Definition clearCache (st : state) : state :=
  let p := performanceStats st in
  with_stats
    {| totalTranslations := totalTranslations p;
       cacheHits := 0;
       avgLatency := avgLatency p;
       modelLoadTime := modelLoadTime p |}
    (with_cache (clear (translationCache st)) st).

(** The helper before any translation, with the given models loaded. *)
Definition fresh (marian : list jsstring) (m2m100 : bool) : state :=
  {| translationCache := [];
     performanceStats :=
       {| totalTranslations := 0; cacheHits := 0; avgLatency := 0;
          modelLoadTime := 0 |};
     marianTranslators := marian;
     m2m100Translator := m2m100;
     isInitialized := true;
     clock := 0;
     modelCalls := [] |}.

(** The calls a client can make, and a run of them from a state. *)
Inductive Call : Type :=
| Translate : jsstring -> jsstring -> jsstring -> Call
| ClearCache : Call.

Definition perform (env : Environment) (st : state) (c : Call) : state :=
  match c with
  | Translate text src tgt => snd (translateText env text src tgt st)
  | ClearCache => clearCache st
  end.

Definition run (env : Environment) (cs : list Call) (st : state) : state :=
  fold_left (perform env) cs st.

(** A cache with unique keys and within the capacity. *)
Definition within (m : Map CachedTranslation) : Prop :=
  NoDup (keys m) /\ size m <= MAX_CACHE_SIZE.

End FastTranslationHelper.

(** ** The translation dispatcher ([TranslationHelper.js]) *)

Module TranslationHelper.
Import JS.

Record TranslationResult : Type := {
  originalText : jsstring;
  translatedText : jsstring;
  pinyin : option jsstring;
  tones : option (list Z);
  confidence : Q;
  provider : jsstring;
  detectedLanguage : jsstring;
  timestamp : Z
}.

Record TranslationProvider : Type := {
  name : jsstring;
  enabled : bool;
  priority : Z
}.

(** What awaiting a provider method does: the promise rejects, or it
    resolves to a result or to [null]. *)
Inductive Outcome : Type :=
| Threw : Outcome
| Returned : option TranslationResult -> Outcome.

(** The fields of the helper that translation reads and writes.  [clock]
    counts the reads of [Date.now()] and [attempted] lists the providers
    tried so far; both are bookkeeping of the model. *)
Record state : Type := {
  translationCache : Map TranslationResult;
  providers : list TranslationProvider;
  clock : nat;
  attempted : list jsstring
}.

Definition MAX_CACHE_SIZE : nat := 1000.

Definition initial : state :=
  {| translationCache := [];
     providers :=
       [ {| name := lit "gemini"; enabled := true; priority := 1 |};
         {| name := lit "google"; enabled := true; priority := 2 |};
         {| name := lit "offline"; enabled := true; priority := 3 |} ];
     clock := 0;
     attempted := [] |}.

Definition with_cache (c : Map TranslationResult) (st : state) : state :=
  {| translationCache := c;
     providers := providers st;
     clock := clock st;
     attempted := attempted st |}.

Definition with_providers (ps : list TranslationProvider) (st : state) :
    state :=
  {| translationCache := translationCache st;
     providers := ps;
     clock := clock st;
     attempted := attempted st |}.

Definition with_clock (n : nat) (st : state) : state :=
  {| translationCache := translationCache st;
     providers := providers st;
     clock := n;
     attempted := attempted st |}.

Definition with_attempt (nm : jsstring) (st : state) : state :=
  {| translationCache := translationCache st;
     providers := providers st;
     clock := clock st;
     attempted := attempted st ++ [nm] |}.

(** [cacheTranslation] on the map, for a capacity. *)
Definition cacheTranslationWith (MAX_CACHE_SIZE : nat) (key : jsstring)
    (r : TranslationResult) (m : Map TranslationResult) :
    Map TranslationResult :=
  let m1 :=
    if MAX_CACHE_SIZE <=? size m then
      match first_key m with
      | Some firstKey => delete firstKey m
      | None => m
      end
    else m in
  set key r m1.

Definition cacheTranslation (key : jsstring) (r : TranslationResult)
    (st : state) : state :=
  with_cache (cacheTranslationWith MAX_CACHE_SIZE key r (translationCache st))
    st.

Definition byPriority (a b : TranslationProvider) : Z :=
  (priority a - priority b)%Z.

Definition setEnabled (b : bool) (p : TranslationProvider) :
    TranslationProvider :=
  {| name := name p; enabled := b; priority := priority p |}.

(** [providers.find(p => p.name === providerName)] followed by the
    assignment to the provider found. *)
Fixpoint enableFirst (providerName : jsstring) (b : bool)
    (ps : list TranslationProvider) : list TranslationProvider :=
  match ps with
  | [] => []
  | p :: ps' =>
      if str_eqb (name p) providerName then setEnabled b p :: ps'
      else p :: enableFirst providerName b ps'
  end.

Definition setProviderEnabled (providerName : jsstring) (b : bool)
    (st : state) : state :=
  with_providers (enableFirst providerName b (providers st)) st.

Definition getProviderStatus (st : state) : list TranslationProvider :=
  providers st.

Definition clearCache (st : state) : state :=
  with_cache (clear (translationCache st)) st.

Definition getCacheStats (st : state) : nat * nat :=
  (size (translationCache st), MAX_CACHE_SIZE).

(** The environment: the system clock at its n-th reading, and the two
    remote providers at the n-th provider attempt. *)
Record Environment : Type := {
  Date_now : nat -> Z;
  translateWithGemini :
    nat -> jsstring -> jsstring -> option jsstring -> Outcome;
  translateWithGoogle :
    nat -> jsstring -> jsstring -> option jsstring -> Outcome
}.

Section Helper.

Variable env : Environment.

Definition now (st : state) : Z * state :=
  (Date_now env (clock st), with_clock (S (clock st)) st).

Definition translateOffline (text targetLanguage : jsstring)
    (sourceLanguage : option jsstring) (st : state) : Outcome * state :=
  let '(t, st1) := now st in
  (Returned (Some
     {| originalText := text;
        translatedText := lit "[OFFLINE] " ++ text;
        pinyin := None;
        tones := None;
        confidence := 3 # 10;
        provider := lit "offline";
        detectedLanguage := or_default sourceLanguage (lit "unknown");
        timestamp := t |}), st1).

(** The [switch (provider.name)] inside the [try] block. *)
Definition callProvider (p : TranslationProvider) (text targetLanguage :
    jsstring) (sourceLanguage : option jsstring) (st : state) :
    Outcome * state :=
  let n := List.length (attempted st) in
  let st1 := with_attempt (name p) st in
  if str_eqb (name p) (lit "gemini") then
    (translateWithGemini env n text targetLanguage sourceLanguage, st1)
  else if str_eqb (name p) (lit "google") then
    (translateWithGoogle env n text targetLanguage sourceLanguage, st1)
  else if str_eqb (name p) (lit "offline") then
    translateOffline text targetLanguage sourceLanguage st1
  else (Returned None, st1).

(** [result && result.confidence > 0.5] *)
Definition accepted (o : Outcome) : option TranslationResult :=
  match o with
  | Returned (Some r) => if Qgtb (confidence r) (5 # 10) then Some r else None
  | _ => None
  end.

(** The body of the [for ... of] loop over the sorted providers. *)
Fixpoint tryProviders (ps : list TranslationProvider) (cacheKey text
    targetLanguage : jsstring) (sourceLanguage : option jsstring)
    (st : state) : option TranslationResult * state :=
  match ps with
  | [] => (None, st)
  | p :: ps' =>
      if negb (enabled p) then
        tryProviders ps' cacheKey text targetLanguage sourceLanguage st
      else
        let '(o, st1) :=
          callProvider p text targetLanguage sourceLanguage st in
        match accepted o with
        | Some r => (Some r, cacheTranslation cacheKey r st1)
        | None =>
            tryProviders ps' cacheKey text targetLanguage sourceLanguage st1
        end
  end.

Definition fallbackResult (text : jsstring) (sourceLanguage : option jsstring)
    (t : Z) : TranslationResult :=
  {| originalText := text;
     translatedText := text;
     pinyin := None;
     tones := None;
     confidence := 0;
     provider := lit "offline";
     detectedLanguage := or_default sourceLanguage (lit "unknown");
     timestamp := t |}.

Definition cacheKeyOf (text targetLanguage : jsstring)
    (sourceLanguage : option jsstring) : jsstring :=
  text ++ lit "-" ++ targetLanguage ++ lit "-"
    ++ or_default sourceLanguage (lit "auto").

(** The default value of the parameter [targetLanguage = 'en']. *)
Definition targetOf (targetLanguage : option jsstring) : jsstring :=
  match targetLanguage with Some l => l | None => lit "en" end.

(** [translateText(text, targetLanguage = 'en', sourceLanguage)] *)
Definition translateText (text : jsstring) (targetLanguage : option jsstring)
    (sourceLanguage : option jsstring) (st : state) :
    TranslationResult * state :=
  let targetLanguage := targetOf targetLanguage in
  let cacheKey := cacheKeyOf text targetLanguage sourceLanguage in
  match get cacheKey (translationCache st) with
  | Some r => (r, st)
  | None =>
      let st1 := with_providers (sort byPriority (providers st)) st in
      match
        tryProviders (providers st1) cacheKey text targetLanguage
          sourceLanguage st1
      with
      | (Some r, st2) => (r, st2)
      | (None, st2) =>
          let '(t, st3) := now st2 in
          (fallbackResult text sourceLanguage t, st3)
      end
  end.

(** The provider chain in the words of the specification: the providers
    are visited in the given order; a disabled one is skipped, one that
    fails or whose result has a confidence of 0.5 or less is passed over,
    and the first result with a confidence above 0.5 is cached and
    returned.  [None] is the exhaustion of the chain. *)
Inductive Dispatch (cacheKey text targetLanguage : jsstring)
    (sourceLanguage : option jsstring) :
    list TranslationProvider -> state -> option TranslationResult -> state ->
    Prop :=
| dispatch_exhausted : forall st,
    Dispatch cacheKey text targetLanguage sourceLanguage [] st None st
| dispatch_disabled : forall p ps st r st',
    enabled p = false ->
    Dispatch cacheKey text targetLanguage sourceLanguage ps st r st' ->
    Dispatch cacheKey text targetLanguage sourceLanguage (p :: ps) st r st'
| dispatch_error : forall p ps st st1 r st',
    enabled p = true ->
    callProvider p text targetLanguage sourceLanguage st = (Threw, st1) ->
    Dispatch cacheKey text targetLanguage sourceLanguage ps st1 r st' ->
    Dispatch cacheKey text targetLanguage sourceLanguage (p :: ps) st r st'
| dispatch_soft_failure : forall p ps st o st1 r st',
    enabled p = true ->
    callProvider p text targetLanguage sourceLanguage st = (Returned o, st1) ->
    (forall res, o = Some res -> (confidence res <= 5 # 10)%Q) ->
    Dispatch cacheKey text targetLanguage sourceLanguage ps st1 r st' ->
    Dispatch cacheKey text targetLanguage sourceLanguage (p :: ps) st r st'
| dispatch_accepted : forall p ps st res st1,
    enabled p = true ->
    callProvider p text targetLanguage sourceLanguage st
    = (Returned (Some res), st1) ->
    (5 # 10 < confidence res)%Q ->
    Dispatch cacheKey text targetLanguage sourceLanguage (p :: ps) st
      (Some res) (cacheTranslation cacheKey res st1).

End Helper.


(** The names of the enabled providers of a list, in its order. *)
Definition enabledNames (ps : list TranslationProvider) : list jsstring :=
  map name (filter enabled ps).

(** The calls a client can make, and a run of them from a state. *)
Inductive Call : Type :=
| Translate : jsstring -> option jsstring -> option jsstring -> Call
| SetProviderEnabled : jsstring -> bool -> Call
| ClearCache : Call.

Section Runs.
Variable env : Environment.

Definition perform (st : state) (c : Call) : state :=
  match c with
  | Translate text tgt src => snd (translateText env text tgt src st)
  | SetProviderEnabled nm b => setProviderEnabled nm b st
  | ClearCache => clearCache st
  end.

Definition run (cs : list Call) (st : state) : state :=
  fold_left perform cs st.
End Runs.

End TranslationHelper.

(** ** The region monitor ([AreaSelectionHelper.ts]) *)

Module AreaSelectionHelper.
Import JS.

Record SelectedRegion : Type := {
  x : Z;
  y : Z;
  width : Z;
  height : Z;
  displayId : Z;
  isActive : bool;
  lastTextHash : option jsstring
}.

(** A region object and whether the map still holds it: a callback that
    awaits the check of a region keeps the object after its deletion. *)
Record Slot : Type := {
  inMap : bool;
  region : SelectedRegion
}.

(** [selectedRegions] is kept as the log of the insertions into the map:
    the identifier of a region is its position in the log (identifiers are
    fresh and never reused), and a live iterator of the map is a position
    in the log.
    [monitoringInterval] tells whether the interval timer is set.
    [running] has one entry per interval callback that has not returned
    yet: the region whose [checkRegionForChanges] it awaits.
    [changed] lists the regions notified as changed. *)
Record state : Type := {
  selectedRegions : list Slot;
  monitoringInterval : bool;
  running : list nat;
  changed : list nat
}.

Definition initial : state :=
  {| selectedRegions := [];
     monitoringInterval := false;
     running := [];
     changed := [] |}.

Definition with_regions (rs : list Slot) (st : state) : state :=
  {| selectedRegions := rs;
     monitoringInterval := monitoringInterval st;
     running := running st;
     changed := changed st |}.

Definition with_interval (b : bool) (st : state) : state :=
  {| selectedRegions := selectedRegions st;
     monitoringInterval := b;
     running := running st;
     changed := changed st |}.

Definition with_running (l : list nat) (st : state) : state :=
  {| selectedRegions := selectedRegions st;
     monitoringInterval := monitoringInterval st;
     running := l;
     changed := changed st |}.

Definition with_changed (l : list nat) (st : state) : state :=
  {| selectedRegions := selectedRegions st;
     monitoringInterval := monitoringInterval st;
     running := running st;
     changed := l |}.

(** [selectedRegions.get(regionId)] *)
Definition getRegion (regionId : nat) (st : state) : option SelectedRegion :=
  match nth_error (selectedRegions st) regionId with
  | Some slot => if inMap slot then Some (region slot) else None
  | None => None
  end.

Fixpoint replace (A : Type) (i : nat) (v : A) (l : list A) : list A :=
  match l, i with
  | [], _ => []
  | _ :: l', O => v :: l'
  | a :: l', S i' => a :: replace i' v l'
  end.

Definition setActive (b : bool) (r : SelectedRegion) : SelectedRegion :=
  {| x := x r; y := y r; width := width r; height := height r;
     displayId := displayId r; isActive := b;
     lastTextHash := lastTextHash r |}.

Definition setHash (h : jsstring) (r : SelectedRegion) : SelectedRegion :=
  {| x := x r; y := y r; width := width r; height := height r;
     displayId := displayId r; isActive := isActive r;
     lastTextHash := Some h |}.

Definition handleSelectionCompleted (sx sy sw sh display : Z) (st : state) :
    state :=
  with_regions
    (selectedRegions st ++
       [ {| inMap := true;
            region :=
              {| x := sx; y := sy; width := sw; height := sh;
                 displayId := display; isActive := false;
                 lastTextHash := None |} |} ]) st.

(** [startMonitoring] clears the interval that is set, if any, and sets a
    new one: one interval timer is live afterwards. *)
Definition startMonitoring (st : state) : state := with_interval true st.

Definition stopMonitoring (st : state) : state := with_interval false st.

Definition deleteRegion (regionId : nat) (st : state) : bool * state :=
  match getRegion regionId st with
  | None => (false, st)
  | Some r =>
      (true,
       with_regions
         (replace regionId {| inMap := false; region := setActive false r |}
            (selectedRegions st)) st)
  end.

Definition toggleRegionMonitoring (regionId : nat) (st : state) :
    bool * state :=
  match getRegion regionId st with
  | None => (false, st)
  | Some r =>
      let r' := setActive (negb (isActive r)) r in
      let st1 :=
        with_regions
          (replace regionId {| inMap := true; region := r' |}
             (selectedRegions st)) st in
      (true,
       if isActive r' && negb (monitoringInterval st1)
       then startMonitoring st1 else st1)
  end.

(** [cleanup] *)
Definition cleanup (st : state) : state :=
  with_regions
    (map (fun slot => {| inMap := false; region := region slot |})
       (selectedRegions st))
    (stopMonitoring st).

(** The [for ... of] loop of the interval callback, from a position of the
    iterator: the next entry that the map holds and that is active.
    [fuel] is the number of entries left to look at. *)
Fixpoint nextActive (fuel from : nat) (st : state) : option nat :=
  match fuel with
  | O => None
  | S fuel' =>
      match getRegion from st with
      | Some r =>
          if isActive r then Some from
          else nextActive fuel' (S from) st
      | None => nextActive fuel' (S from) st
      end
  end.

Definition nextActiveFrom (from : nat) (st : state) : option nat :=
  nextActive (List.length (selectedRegions st) - from) from st.

(** The interval timer fires: the callback runs up to its first [await],
    which is the check of the first active region; with no active region
    it returns at once. *)
Definition tick (st : state) : state :=
  if monitoringInterval st then
    match nextActiveFrom 0 st with
    | Some regionId => with_running (running st ++ [regionId]) st
    | None => st
    end
  else st.

(** The effect of [checkRegionForChanges] on the region object once the
    screenshot is taken and hashed; [None] stands for a capture that
    failed. *)
Definition checkRegionForChanges (regionId : nat) (imageHash : option jsstring)
    (st : state) : state :=
  match imageHash, nth_error (selectedRegions st) regionId with
  | Some h, Some slot =>
      let unchanged :=
        match lastTextHash (region slot) with
        | Some (c :: old) => str_eqb (c :: old) h
        | _ => false
        end in
      if unchanged then st
      else
        with_changed (changed st ++ [regionId])
          (with_regions
             (replace regionId
                {| inMap := inMap slot; region := setHash h (region slot) |}
                (selectedRegions st)) st)
  | _, _ => st
  end.

Fixpoint remove_nth (A : Type) (k : nat) (l : list A) : list A :=
  match l, k with
  | [], _ => []
  | _ :: l', O => l'
  | a :: l', S k' => a :: remove_nth k' l'
  end.

(** The check awaited by the [k]-th running callback completes: the
    callback resumes its loop and awaits the check of the next active
    region, or returns. *)
Definition checkDone (k : nat) (imageHash : option jsstring) (st : state) :
    state :=
  match nth_error (running st) k with
  | None => st
  | Some regionId =>
      let st1 := checkRegionForChanges regionId imageHash st in
      match nextActiveFrom (S regionId) st1 with
      | Some next => with_running (replace k next (running st1)) st1
      | None => with_running (remove_nth k (running st1)) st1
      end
  end.

(** What can happen to the monitor, in any order. *)
Inductive Event : Type :=
| SelectionCompleted : Z -> Z -> Z -> Z -> Z -> Event
| ToggleRegionMonitoring : nat -> Event
| DeleteRegion : nat -> Event
| StartMonitoring : Event
| StopMonitoring : Event
| Cleanup : Event
| Tick : Event
| CheckDone : nat -> option jsstring -> Event.

Definition step (st : state) (e : Event) : state :=
  match e with
  | SelectionCompleted sx sy sw sh d => handleSelectionCompleted sx sy sw sh d st
  | ToggleRegionMonitoring regionId => snd (toggleRegionMonitoring regionId st)
  | DeleteRegion regionId => snd (deleteRegion regionId st)
  | StartMonitoring => startMonitoring st
  | StopMonitoring => stopMonitoring st
  | Cleanup => cleanup st
  | Tick => tick st
  | CheckDone k h => checkDone k h st
  end.

Definition run (es : list Event) (st : state) : state := fold_left step es st.

(** The number of checks of a region that are in flight. *)
Definition inFlight (regionId : nat) (st : state) : nat :=
  count_occ Nat.eq_dec (running st) regionId.

(** A schedule in which no tick fires while an earlier callback is still
    running: every check finishes within the interval. *)
Fixpoint serial (es : list Event) (st : state) : Prop :=
  match es with
  | [] => True
  | e :: es' =>
      (e = Tick -> running st = []) /\ serial es' (step st e)
  end.

End AreaSelectionHelper.

(** ** Concrete runs used below *)

Module Scenarios.
Import JS.

(** Eleven distinct cache keys. *)
Definition keyOf (n : nat) : jsstring := lit "k" ++ [N.of_nat n].

Definition fastResult (text : jsstring) (c : Q) :
    FastTranslationHelper.FastTranslationResult :=
  {| FastTranslationHelper.originalText := text;
     FastTranslationHelper.translatedText := text;
     FastTranslationHelper.confidence := c;
     FastTranslationHelper.latency := 0;
     FastTranslationHelper.provider := lit "marian";
     FastTranslationHelper.detectedLanguage := lit "zh";
     FastTranslationHelper.isSubtitle := true;
     FastTranslationHelper.timestamp := 0 |}.

(** Puts of the keys [keyOf 0 .. keyOf (n-1)], the i-th at time [i]. *)
Definition fastPuts (n : nat) :
    list (jsstring * FastTranslationHelper.FastTranslationResult * Z) :=
  map (fun i => (keyOf i, fastResult (keyOf i) (8 # 10), Z.of_nat i))
    (List.seq 0 n).

Definition fastPut (C : nat)
    (m : Map FastTranslationHelper.CachedTranslation)
    (p : jsstring * FastTranslationHelper.FastTranslationResult * Z) :
    Map FastTranslationHelper.CachedTranslation :=
  let '(k, r, t) := p in FastTranslationHelper.cacheTranslationWith C k r t m.

Definition dispatcherResult (text : jsstring) (c : Q) (nm : jsstring) :
    TranslationHelper.TranslationResult :=
  {| TranslationHelper.originalText := text;
     TranslationHelper.translatedText := lit "hello";
     TranslationHelper.pinyin := None;
     TranslationHelper.tones := None;
     TranslationHelper.confidence := c;
     TranslationHelper.provider := nm;
     TranslationHelper.detectedLanguage := lit "zh";
     TranslationHelper.timestamp := 0 |}.

Definition dispatcherPut (C : nat)
    (m : Map TranslationHelper.TranslationResult)
    (p : jsstring * TranslationHelper.TranslationResult) :
    Map TranslationHelper.TranslationResult :=
  let '(k, r) := p in TranslationHelper.cacheTranslationWith C k r m.

Definition dispatcherPuts (n : nat) :
    list (jsstring * TranslationHelper.TranslationResult) :=
  map (fun i => (keyOf i, dispatcherResult (keyOf i) (8 # 10) (lit "gemini")))
    (List.seq 0 n).

(** A clock that advances by one at each reading. *)
Definition ticking (n : nat) : Z := Z.of_nat n.

(** Gemini answers with confidence 0.9; Google is unreachable. *)
Definition geminiAnswers : TranslationHelper.Environment :=
  {| TranslationHelper.Date_now := ticking;
     TranslationHelper.translateWithGemini := fun _ text _ _ =>
       TranslationHelper.Returned
         (Some (dispatcherResult text (9 # 10) (lit "gemini")));
     TranslationHelper.translateWithGoogle := fun _ _ _ _ =>
       TranslationHelper.Threw |}.

(** Gemini has no model ([null]); Google answers with confidence 0.3. *)
Definition nobodyAnswers : TranslationHelper.Environment :=
  {| TranslationHelper.Date_now := ticking;
     TranslationHelper.translateWithGemini := fun _ _ _ _ =>
       TranslationHelper.Returned None;
     TranslationHelper.translateWithGoogle := fun _ text _ _ =>
       TranslationHelper.Returned
         (Some (dispatcherResult text (3 # 10) (lit "google"))) |}.

(** The pair model answers without a score; the general model throws. *)
Definition marianAnswers : FastTranslationHelper.Environment :=
  {| FastTranslationHelper.Date_now := ticking;
     FastTranslationHelper.marianRun := fun _ _ _ =>
       FastTranslationHelper.ModelOutput (lit "hello") None;
     FastTranslationHelper.m2m100Run := fun _ _ _ _ =>
       FastTranslationHelper.ModelThrew |}.


(** The fast helper with the Chinese-to-English pair model loaded. *)
Definition loaded : FastTranslationHelper.state :=
  FastTranslationHelper.fresh [lit "zh-en"] true.

(** The dispatcher cache after a thousand distinct insertions. *)
Definition fullCache : Map TranslationHelper.TranslationResult :=
  fold_left (dispatcherPut TranslationHelper.MAX_CACHE_SIZE)
    (dispatcherPuts 1000) [].

(** A request. *)
Definition greeting : jsstring := lit "ni hao".



(** Ten entries in a fast cache of capacity ten. *)
Definition tenEntries : Map FastTranslationHelper.CachedTranslation :=
  fold_left (fastPut 10) (fastPuts 10) [].

End Scenarios.

(** ** Cleaning of recognised text (both helpers) *)

Module TextCleaning.
Import JS Regex.

Definition between (lo hi : N) (c : N) : bool := ((lo <=? c) && (c <=? hi))%N.

(** [\w] *)
Definition word (c : N) : bool :=
  range "A" "Z" c || range "a" "z" c || digit c || one "_" c.

(** [text.replace(/p+/g, ' ')]: every maximal run of code units of the
    class becomes one space; [inRun] tells that the run has begun. *)
Fixpoint collapseRuns (p : N -> bool) (inRun : bool) (s : jsstring) :
    jsstring :=
  match s with
  | [] => []
  | c :: s' =>
      if p c then
        if inRun then collapseRuns p true s'
        else 32%N :: collapseRuns p true s'
      else c :: collapseRuns p false s'
  end.

Definition replaceRuns (p : N -> bool) (s : jsstring) : jsstring :=
  collapseRuns p false s.

(** [text.replace(/[^kept]/g, '')] *)
Definition keepOnly (kept : N -> bool) (s : jsstring) : jsstring :=
  filter kept s.

(** [text.trim()]: white space and line terminators go from both ends. *)
Fixpoint trimStart (s : jsstring) : jsstring :=
  match s with
  | [] => []
  | c :: s' => if space c then trimStart s' else c :: s'
  end.

Definition trim (s : jsstring) : jsstring :=
  rev (trimStart (rev (trimStart s))).

(** The punctuation both helpers keep: the ASCII marks, the full-width
    marks U+FF0C U+3002 U+FF01 U+FF1F U+FF1B U+FF1A, the brackets U+FF08
    U+FF09 U+3010 U+3011 U+300A U+300B, the comma U+3001 and the hyphen. *)
Definition punctuation (c : N) : bool :=
  oneOf ".,!?;:'()[]{}-" c || unit 34 c
  || existsb (fun u => (c =? u)%N)
       [65292; 12290; 65281; 65311; 65307; 65306; 65288; 65289;
        12304; 12305; 12298; 12299; 12289]%N.

(** The class kept by [TranslationHelper.cleanExtractedText]. *)
Definition keptByDispatcher (c : N) : bool :=
  word c || space c || between 19968 40959 c || punctuation c.

(** The class kept by [FastTranslationHelper.cleanSubtitleText]: also
    kana (U+3040..U+30FF) and hangul (U+AC00..U+D7AF). *)
Definition keptByFast (c : N) : bool :=
  word c || space c || between 19968 40959 c || between 12352 12447 c
  || between 12448 12543 c || between 44032 55215 c || punctuation c.

Definition cleanWith (kept : N -> bool) (text : jsstring) : jsstring :=
  trim (keepOnly kept (replaceRuns space (replaceRuns (unit 10) text))).

Definition cleanExtractedText (text : jsstring) : jsstring :=
  cleanWith keptByDispatcher text.

Definition cleanSubtitleText (text : jsstring) : jsstring :=
  cleanWith keptByFast text.

End TextCleaning.

(** ** Language detection and the image pipeline of the fast helper *)

Module FastPipeline.
Import JS Regex TextCleaning SubtitleDetection FastTranslationHelper.

(** [/[\ulo-\uhi]/.test(text)] *)
Definition hasUnit (lo hi : N) (text : jsstring) : bool :=
  existsb (between lo hi) text.

Definition detectLanguage (text : jsstring) : jsstring :=
  if hasUnit 19968 40959 text then lit "zh"
  else if existsb (either (between 12352 12447) (between 12448 12543)) text
  then lit "ja"
  else if hasUnit 44032 55215 text then lit "ko"
  else if hasUnit 1536 1791 text then lit "ar"
  else if hasUnit 2304 2431 text then lit "hi"
  else if hasUnit 3584 3711 text then lit "th"
  else lit "en".

Definition getSupportedLanguages : list jsstring := keys supportedLanguages.

(** What [ocrWorker.recognize] does inside [extractTextFromImage]: the
    file is missing or the recognition throws, or text comes back with a
    confidence between 0 and 100. *)
Inductive OcrRun : Type :=
| OcrThrew : OcrRun
| OcrRead : jsstring -> Q -> OcrRun.

(** [extractTextFromImage] with the OCR worker set, as it is on an
    initialised helper. *)
Definition extractTextFromImage (ocr : OcrRun) : jsstring * Q :=
  match ocr with
  | OcrThrew => ([], 0%Q)
  | OcrRead text confidence => (cleanSubtitleText text, (confidence / 100)%Q)
  end.

(** [cleanup]: the counters of [performanceStats] are not touched. *)
Definition cleanup (st : state) : state :=
  {| translationCache := clear (translationCache st);
     performanceStats := performanceStats st;
     marianTranslators := [];
     m2m100Translator := false;
     isInitialized := false;
     clock := clock st;
     modelCalls := modelCalls st |}.

(** What the loading steps of [initialize] do: [initializeOCR] and the
    pipeline of the general model resolve or throw, and so does the
    pipeline of the model of a language pair (the pairs that
    [initialize] asks for are distinct: one outcome for a pair). *)
Record InitRun : Type := {
  ocrStarts : bool;
  m2m100Loads : bool;
  marianLoads : jsstring -> bool
}.

Definition with_m2m100 (b : bool) (st : state) : state :=
  {| translationCache := translationCache st;
     performanceStats := performanceStats st;
     marianTranslators := marianTranslators st;
     m2m100Translator := b;
     isInitialized := isInitialized st;
     clock := clock st;
     modelCalls := modelCalls st |}.

Definition with_marian (l : list jsstring) (st : state) : state :=
  {| translationCache := translationCache st;
     performanceStats := performanceStats st;
     marianTranslators := l;
     m2m100Translator := m2m100Translator st;
     isInitialized := isInitialized st;
     clock := clock st;
     modelCalls := modelCalls st |}.

(** [marianTranslators.set(pair, translator)] on the keys of the map. *)
Definition setKey (pair : jsstring) (l : list jsstring) : list jsstring :=
  if existsb (str_eqb pair) l then l else l ++ [pair].

(** The keys of the table [marianModels] of [preloadMarianModels]. *)
Definition marianModels : list jsstring :=
  map lit ["zh-en"; "ja-en"; "ko-en"; "en-zh"]%string.

(** The names that every object literal inherits: for these, too,
    [marianModels[pair]] is truthy. *)
Definition inheritedNames : list jsstring :=
  map lit
    ["constructor"; "toString"; "toLocaleString"; "valueOf";
     "hasOwnProperty"; "isPrototypeOf"; "propertyIsEnumerable";
     "__proto__"; "__defineGetter__"; "__defineSetter__";
     "__lookupGetter__"; "__lookupSetter__"]%string.

(** [marianModels[pair]] is truthy. *)
Definition hasModelName (pair : jsstring) : bool :=
  existsb (str_eqb pair) (marianModels ++ inheritedNames).

(** [loadM2M100Model]: [false] when it throws. *)
Definition loadM2M100Model (init : InitRun) (st : state) : bool * state :=
  if m2m100Loads init then (true, with_m2m100 true st) else (false, st).

(** [preloadMarianModels]: a pair whose model fails to load is skipped. *)
Definition preloadMarianModels (init : InitRun)
    (languagePairs : list jsstring) (st : state) : state :=
  fold_left
    (fun acc pair =>
       if hasModelName pair && marianLoads init pair
       then with_marian (setKey pair (marianTranslators acc)) acc
       else acc)
    languagePairs st.

(** The pairs that [initialize] preloads. *)
Definition preloaded : list jsstring :=
  map lit ["zh-en"; "ja-en"; "ko-en"]%string.

(** [initialize]: [false] when it throws.  The OCR worker is no field of
    the state: it is set whenever [isInitialized] is. *)
Definition initialize (env : Environment) (init : InitRun) (st : state) :
    bool * state :=
  if isInitialized st then (true, st)
  else
    let '(startTime, st0) := now env st in
    if negb (ocrStarts init) then (false, st0)
    else
      match loadM2M100Model init st0 with
      | (false, st1) => (false, st1)
      | (true, st1) =>
          let st2 := preloadMarianModels init preloaded st1 in
          let '(t, st3) := now env st2 in
          let p := performanceStats st3 in
          (true,
           {| translationCache := translationCache st3;
              performanceStats :=
                {| totalTranslations := totalTranslations p;
                   cacheHits := cacheHits p;
                   avgLatency := avgLatency p;
                   modelLoadTime := (t - startTime)%Z |};
              marianTranslators := marianTranslators st3;
              m2m100Translator := m2m100Translator st3;
              isInitialized := true;
              clock := clock st3;
              modelCalls := modelCalls st3 |})
      end.

(** What awaiting [extractAndTranslateFromImage] gives: the promise is
    rejected, which only [initialize] can cause, or it resolves to a
    result or to [null]. *)
Inductive Answer : Type :=
| Rejected : Answer
| Resolved : option FastTranslationResult -> Answer.

(** [extractAndTranslateFromImage(imagePath, targetLanguage = 'en',
    sourceLanguage)]: the answer and the new state. *)
Definition extractAndTranslateFromImage (env : Environment) (init : InitRun)
    (ocr : OcrRun) (targetLanguage sourceLanguage : option jsstring)
    (st : state) : Answer * state :=
  match (if negb (isInitialized st) then initialize env init st
         else (true, st)) with
  | (false, st') => (Rejected, st')
  | (true, st') =>
      let targetLanguage :=
        match targetLanguage with Some l => l | None => lit "en" end in
      let '(startTime, st0) := now env st' in
      let '(text, _) := extractTextFromImage ocr in
      match text, trim text with
      | [], _ => (Resolved None, st0)
      | _, [] => (Resolved None, st0)
      | _, _ =>
          let subtitleInfo := detectSubtitlePattern text in
          let detectedLang :=
            or_default sourceLanguage (detectLanguage text) in
          let '(translation, st1) :=
            translateText env text detectedLang targetLanguage st0 in
          let '(t, st2) := now env st1 in
          (Resolved
             (Some
                {| originalText := originalText translation;
                   translatedText := translatedText translation;
                   confidence := FastTranslationHelper.confidence translation;
                   latency := (t - startTime)%Z;
                   provider := provider translation;
                   detectedLanguage := detectedLanguage translation;
                   isSubtitle := SubtitleDetection.isSubtitle subtitleInfo;
                   timestamp := timestamp translation |}), st2)
      end
  end.





(** The number of [Translate] calls in a list of calls. *)
Definition translations (cs : list Call) : nat :=
  List.length
    (filter (fun c => match c with Translate _ _ _ => true | _ => false end)
       cs).

Definition clears (cs : list Call) : nat :=
  List.length
    (filter (fun c => match c with ClearCache => true | _ => false end) cs).

(** The same request made [n] times. *)
Definition repeated (n : nat) (text src tgt : jsstring) : list Call :=
  repeat (Translate text src tgt) n.

(** No code unit of the string is the separator of the cache key. *)
Definition barFree (s : jsstring) : Prop := ~ In 124%N s.

End FastPipeline.

(** ** Image hashes and the list of regions ([AreaSelectionHelper.ts]) *)

Module RegionExtras.
Import JS AreaSelectionHelper.

(** [Math.round(mean)]: the nearest integer, a half going up. *)
Definition roundMean (mean : Q) : Z := Qfloor (mean + (1 # 2)).

Definition hexDigit (d : N) : N :=
  if (d <? 10)%N then (48 + d)%N else (87 + d)%N.

(** The hexadecimal digits of a number in front of [acc]; [fuel] bounds
    the number of digits. *)
Fixpoint hexDigits (fuel : nat) (n : N) (acc : jsstring) : jsstring :=
  match fuel with
  | O => acc
  | S fuel' =>
      let acc' := hexDigit (n mod 16) :: acc in
      if (n / 16 =? 0)%N then acc' else hexDigits fuel' (n / 16) acc'
  end.

(** [z.toString(16)] for an integer. *)
Definition toString16 (z : Z) : jsstring :=
  let n := Z.to_N (Z.abs z) in
  let digits := hexDigits (S (N.to_nat (N.log2 n))) n [] in
  if (z <? 0)%Z then 45%N :: digits else digits.

(** [generateImageHash], from the means of the channels of the image
    ([stats.channels.map(c => Math.round(c.mean).toString(16)).join('')]). *)
Definition generateImageHash (channelMeans : list Q) : jsstring :=
  concat (map (fun mean => toString16 (roundMean mean)) channelMeans).

(** [getSelectedRegions] *)
Definition getSelectedRegions (st : state) : list SelectedRegion :=
  map region (filter inMap (selectedRegions st)).

(** The events that clear the interval timer. *)
Definition clearsInterval (e : Event) : bool :=
  match e with
  | StopMonitoring | Cleanup => true
  | _ => false
  end.

End RegionExtras.

(** ** More concrete runs *)

Module MoreScenarios.
Import JS Scenarios.

(** The dispatcher with Gemini and Google switched off. *)
Definition offlineOnly : TranslationHelper.state :=
  TranslationHelper.setProviderEnabled (lit "google") false
    (TranslationHelper.setProviderEnabled (lit "gemini") false
       TranslationHelper.initial).

(** The dispatcher with every provider switched off. *)
Definition allOff : TranslationHelper.state :=
  TranslationHelper.setProviderEnabled (lit "offline") false offlineOnly.

(** The fast helper with no model loaded. *)
Definition unloaded : FastTranslationHelper.state :=
  FastTranslationHelper.fresh [] false.

(** The pair model throws; the general model would answer. *)
Definition marianThrows : FastTranslationHelper.Environment :=
  {| FastTranslationHelper.Date_now := ticking;
     FastTranslationHelper.marianRun := fun _ _ _ =>
       FastTranslationHelper.ModelThrew;
     FastTranslationHelper.m2m100Run := fun _ _ _ _ =>
       FastTranslationHelper.ModelOutput (lit "hello") None |}.

(** A region selected, switched on and then deleted. *)
Definition selectedAndDeleted : list AreaSelectionHelper.Event :=
  [ AreaSelectionHelper.SelectionCompleted 10 20 300 40 1;
    AreaSelectionHelper.ToggleRegionMonitoring 0;
    AreaSelectionHelper.DeleteRegion 0 ].

(** One region, selected and switched on. *)
Definition watching : AreaSelectionHelper.state :=
  AreaSelectionHelper.run
    [ AreaSelectionHelper.SelectionCompleted 10 20 300 40 1;
      AreaSelectionHelper.ToggleRegionMonitoring 0 ]
    AreaSelectionHelper.initial.

(** Two entries in a dispatcher cache of capacity two. *)
Definition twoEntries : Map TranslationHelper.TranslationResult :=
  fold_left (dispatcherPut 2) (dispatcherPuts 2) [].

(** The entry of [tenEntries] that was put last. *)
Definition newestEntry : FastTranslationHelper.CachedTranslation :=
  {| FastTranslationHelper.result := fastResult (keyOf 9) (8 # 10);
     FastTranslationHelper.accessCount := 1;
     FastTranslationHelper.lastAccessed := 9 |}.

(** A region switched on, switched off and switched on again, and a tick. *)
Definition undisturbed : list AreaSelectionHelper.Event :=
  [ AreaSelectionHelper.SelectionCompleted 10 20 300 40 1;
    AreaSelectionHelper.ToggleRegionMonitoring 0;
    AreaSelectionHelper.ToggleRegionMonitoring 0;
    AreaSelectionHelper.ToggleRegionMonitoring 0;
    AreaSelectionHelper.Tick ].

(** The means of the three channels of a grey image. *)
Definition grey : list Q := [128 # 1; 128 # 1; 128 # 1].

(** What the OCR reads off a subtitle, with confidence 90. *)
Definition recognised : FastPipeline.OcrRun :=
  FastPipeline.OcrRead (lit "  ni hao.  ") (90 # 1).

(** Every model loads. *)
Definition allLoad : FastPipeline.InitRun :=
  {| FastPipeline.ocrStarts := true;
     FastPipeline.m2m100Loads := true;
     FastPipeline.marianLoads := fun _ => true |}.



(** Two regions selected and switched on; a tick, the check of the first
    region done, and a second tick while the first callback checks the
    second region. *)
Definition twoRegions : list AreaSelectionHelper.Event :=
  [ AreaSelectionHelper.SelectionCompleted 10 20 300 40 1;
    AreaSelectionHelper.SelectionCompleted 10 80 300 40 1;
    AreaSelectionHelper.ToggleRegionMonitoring 0;
    AreaSelectionHelper.ToggleRegionMonitoring 1;
    AreaSelectionHelper.Tick;
    AreaSelectionHelper.CheckDone 0 None;
    AreaSelectionHelper.Tick ].


End MoreScenarios.

(* ===================================================================== *)
(** * Part II: properties *)
(* ===================================================================== *)

Unset Implicit Arguments.

(** ** Strings, maps and sorting *)

Module JSFacts.
Import JS.

Lemma str_eqb_eq (a b : jsstring) : str_eqb a b = true <-> a = b.
Proof.
  revert b; induction a as [|x a IH]; intros [|y b]; simpl;
    try (split; [discriminate | discriminate]); try tauto.
  rewrite andb_true_iff, N.eqb_eq, IH.
  split; [intros [-> ->]; reflexivity | intros H; inversion H; auto].
Qed.

Lemma str_eqb_refl (a : jsstring) : str_eqb a a = true.
Proof. apply str_eqb_eq; reflexivity. Qed.

Lemma str_eqb_neq (a b : jsstring) : str_eqb a b = false <-> a <> b.
Proof.
  rewrite <- str_eqb_eq. destruct (str_eqb a b); split; congruence.
Qed.

Ltac case_key k k' :=
  let E := fresh "E" in
  destruct (str_eqb k k') eqn:E;
  [apply str_eqb_eq in E; try subst | apply str_eqb_neq in E].

Section MapFacts.
Variable V : Type.
Implicit Types (m : Map V) (k : jsstring) (v : V).

Lemma get_set_same k v m : get k (set k v m) = Some v.
Proof.
  induction m as [|[k' v'] m IH]; simpl.
  - now rewrite str_eqb_refl.
  - case_key k k'; simpl.
    + now rewrite str_eqb_refl.
    + apply str_eqb_neq in E. now rewrite E.
Qed.

Lemma get_set_other k k' v m : k <> k' -> get k' (set k v m) = get k' m.
Proof.
  intros Hne. induction m as [|[k0 v0] m IH]; simpl.
  - case_key k' k; [congruence | reflexivity].
  - case_key k k0; simpl.
    + case_key k' k0; [congruence | reflexivity].
    + now rewrite IH.
Qed.

Lemma get_In k v m : get k m = Some v -> In (k, v) m.
Proof.
  induction m as [|[k' v'] m IH]; simpl; [discriminate|].
  case_key k k'; intros H; [inversion H; auto | auto].
Qed.

Lemma get_None k m : get k m = None <-> ~ In k (keys m).
Proof.
  induction m as [|[k' v'] m IH]; simpl; [tauto|].
  case_key k k'.
  - split; [discriminate | intros H; exfalso; auto].
  - rewrite IH. split; [intros H [H1 | H1]; auto | tauto].
Qed.

Lemma keys_set_fresh k v m :
  ~ In k (keys m) -> set k v m = m ++ [(k, v)].
Proof.
  induction m as [|[k' v'] m IH]; simpl; intros H; [reflexivity|].
  case_key k k'; [exfalso; auto |].
  rewrite IH; auto.
Qed.

Lemma keys_set_present k v m : In k (keys m) -> keys (set k v m) = keys m.
Proof.
  induction m as [|[k' v'] m IH]; simpl; intros H; [easy|].
  case_key k k'; simpl; [reflexivity|].
  destruct H as [H | H]; [congruence|]. now rewrite IH.
Qed.

Lemma size_set k v m :
  size (set k v m) = if has k m then size m else S (size m).
Proof.
  unfold has, size. induction m as [|[k' v'] m IH]; simpl; [reflexivity|].
  case_key k k'; simpl; [reflexivity|].
  rewrite IH. now destruct (get k m).
Qed.

Lemma size_set_le k v m : size (set k v m) <= S (size m).
Proof. rewrite size_set. destruct (has k m); lia. Qed.

Lemma NoDup_keys_set k v m : NoDup (keys m) -> NoDup (keys (set k v m)).
Proof.
  intros H. destruct (in_dec (list_eq_dec N.eq_dec) k (keys m)) as [Hin | Hin].
  - now rewrite keys_set_present.
  - rewrite keys_set_fresh by assumption. unfold keys.
    rewrite map_app. simpl.
    apply NoDup_app; auto.
    + constructor; [simpl; tauto | constructor].
    + intros a Ha [<- | []]. auto.
Qed.

Lemma In_set k v m e : In e (set k v m) -> e = (k, v) \/ In e m.
Proof.
  induction m as [|[k' v'] m IH]; simpl.
  - intros [<- | []]; auto.
  - case_key k k'; simpl; intros [<- | H]; auto.
    destruct (IH H); auto.
Qed.

Lemma delete_filter k m :
  NoDup (keys m) ->
  delete k m = filter (fun e => negb (str_eqb k (fst e))) m.
Proof.
  induction m as [|[k' v'] m IH]; simpl; intros H; [reflexivity|].
  inversion H as [|? ? Hnin Hnd]; subst.
  case_key k k'; simpl.
  - symmetry. apply forallb_filter_id. apply forallb_forall.
    intros [k1 v1] Hin. simpl. apply negb_true_iff, str_eqb_neq.
    intros ->. apply Hnin. now apply (in_map fst) in Hin.
  - now rewrite IH.
Qed.

Lemma In_delete k m e : In e (delete k m) -> In e m.
Proof.
  induction m as [|[k' v'] m IH]; simpl; [tauto|].
  case_key k k'; simpl; [auto|]. intros [H | H]; auto.
Qed.

Lemma size_delete_le k m : size (delete k m) <= size m.
Proof.
  unfold size. induction m as [|[k' v'] m IH]; simpl; [lia|].
  case_key k k'; simpl; lia.
Qed.

Lemma size_delete_In k m :
  In k (keys m) -> S (size (delete k m)) = size m.
Proof.
  unfold size. induction m as [|[k' v'] m IH]; simpl; [tauto|].
  case_key k k'; simpl; [reflexivity|].
  intros [H | H]; [congruence|]. now rewrite IH.
Qed.

Lemma keys_delete_incl k m : incl (keys (delete k m)) (keys m).
Proof.
  intros a Ha. unfold keys in *. apply in_map_iff in Ha.
  destruct Ha as [e [<- He]]. apply in_map. eapply In_delete; eauto.
Qed.

Lemma NoDup_keys_delete k m : NoDup (keys m) -> NoDup (keys (delete k m)).
Proof.
  induction m as [|[k' v'] m IH]; simpl; intros H; [constructor|].
  inversion H as [|? ? Hnin Hnd]; subst.
  case_key k k'; simpl; [assumption|].
  constructor; auto. intros Hin. apply Hnin. eapply keys_delete_incl; eauto.
Qed.

Lemma keys_delete_other k k' m :
  k <> k' -> In k' (keys m) -> In k' (keys (delete k m)).
Proof.
  intros Hne. induction m as [|[k0 v0] m IH]; simpl; [tauto|].
  case_key k k0; simpl.
  - intros [H | H]; [congruence | assumption].
  - intros [H | H]; auto.
Qed.

End MapFacts.

(** Sorting with a comparator that subtracts a numeric key. *)
Section SortFacts.
Variable A : Type.
Variable f : A -> Z.

Lemma insert_perm x l : Permutation (x :: l) (insert (keyCmp f) x l).
Proof.
  induction l as [|y l IH]; simpl; [reflexivity|].
  destruct (0 <? keyCmp f x y)%Z; [|reflexivity].
  rewrite perm_swap. now constructor.
Qed.

Lemma sort_perm l : Permutation l (sort (keyCmp f) l).
Proof.
  induction l as [|x l IH]; simpl; [constructor|].
  rewrite <- insert_perm. now constructor.
Qed.

Lemma insert_sorted x l :
  StronglySorted (keyLe f) l -> StronglySorted (keyLe f) (insert (keyCmp f) x l).
Proof.
  induction 1 as [|y l Hs IH Hall]; simpl.
  - constructor; constructor.
  - destruct (0 <? keyCmp f x y)%Z eqn:E.
    + apply Z.ltb_lt in E. constructor; [assumption|].
      eapply Permutation_Forall; [apply insert_perm|].
      constructor; [unfold keyLe, keyCmp in *; lia | assumption].
    + apply Z.ltb_ge in E. constructor; [now constructor|].
      constructor; [unfold keyLe, keyCmp in *; lia|].
      eapply Forall_impl; [|exact Hall].
      intros a Ha. unfold keyLe, keyCmp in *. lia.
Qed.

Lemma sort_sorted l : StronglySorted (keyLe f) (sort (keyCmp f) l).
Proof.
  induction l as [|x l IH]; simpl; [constructor | now apply insert_sorted].
Qed.

(** The sort is stable: entries with equal keys keep their order. *)
Lemma insert_stable v x l :
  filter (fun a => (f a =? v)%Z) (insert (keyCmp f) x l)
  = filter (fun a => (f a =? v)%Z) (x :: l).
Proof.
  induction l as [|y l IH]; simpl; [reflexivity|].
  destruct (0 <? keyCmp f x y)%Z eqn:E; [|reflexivity].
  apply Z.ltb_lt in E. simpl. rewrite IH. simpl.
  destruct (f x =? v)%Z eqn:Ex, (f y =? v)%Z eqn:Ey; try reflexivity.
  apply Z.eqb_eq in Ex, Ey. unfold keyCmp in E. lia.
Qed.

Lemma sort_stable v l :
  filter (fun a => (f a =? v)%Z) (sort (keyCmp f) l)
  = filter (fun a => (f a =? v)%Z) l.
Proof.
  induction l as [|x l IH]; simpl; [reflexivity|].
  rewrite insert_stable. simpl. now rewrite IH.
Qed.

End SortFacts.

End JSFacts.

(** ** The cache of the fast translation helper *)

Module FastCacheFacts.
Import JS JSFacts FastTranslationHelper.

Lemma deleteAll_NoDup vs m : NoDup (keys m) -> NoDup (keys (deleteAll vs m)).
Proof.
  revert m; induction vs as [|v vs IH]; simpl; intros m H; [assumption|].
  apply IH. now apply NoDup_keys_delete.
Qed.

Lemma deleteAll_size vs m :
  NoDup (keys m) -> NoDup (map fst vs) -> incl (map fst vs) (keys m) ->
  size (deleteAll vs m) + List.length vs = size m.
Proof.
  revert m; induction vs as [|[k e] vs IH]; simpl; intros m Hm Hvs Hin.
  - lia.
  - inversion Hvs as [|? ? Hk Hvs']; subst.
    rewrite <- (size_delete_In CachedTranslation k m)
      by (apply Hin; simpl; auto).
    rewrite <- (IH (delete k m)); [lia | | assumption |].
    + now apply NoDup_keys_delete.
    + intros k' Hk'. apply keys_delete_other.
      * intros ->. contradiction.
      * apply Hin. simpl. auto.
Qed.

Lemma deleteAll_filter vs m :
  NoDup (keys m) ->
  deleteAll vs m
  = filter (fun e => negb (existsb (fun v => str_eqb (fst v) (fst e)) vs)) m.
Proof.
  revert m; induction vs as [|[k e] vs IH]; simpl; intros m Hm.
  - symmetry. apply forallb_filter_id. now apply forallb_forall.
  - rewrite IH by now apply NoDup_keys_delete.
    rewrite delete_filter by assumption.
    clear. induction m as [|[k' e'] m IHm]; simpl; [reflexivity|].
    destruct (str_eqb k k'); simpl; [assumption | now rewrite IHm].
Qed.

Lemma sorted_NoDup_keys m :
  NoDup (keys m) -> NoDup (map fst (sortedEntries m)).
Proof.
  intros H. eapply Permutation_NoDup; [|exact H].
  apply Permutation_map.
  exact (sort_perm _ (fun e => lastAccessed (snd e)) m).
Qed.

End FastCacheFacts.

Module EvictionFacts.
Import JS JSFacts FastTranslationHelper FastCacheFacts.

Lemma toRemove_le C : toRemove C <= C.
Proof.
  unfold toRemove. apply Nat.Div0.div_le_upper_bound. lia.
Qed.

Lemma toRemove_pos C : 5 <= C -> 1 <= toRemove C.
Proof.
  unfold toRemove. intros H.
  apply Nat.div_le_lower_bound; lia.
Qed.

Lemma sortedEntries_length m : List.length (sortedEntries m) = List.length m.
Proof.
  symmetry. apply Permutation_length.
  exact (sort_perm _ (fun e => lastAccessed (snd e)) m).
Qed.

Lemma sortedEntries_In m e : In e (sortedEntries m) <-> In e m.
Proof.
  pose proof (sort_perm _ (fun e => lastAccessed (snd e)) m) as P.
  split; intros H.
  - eapply Permutation_in; [symmetry; exact P | exact H].
  - eapply Permutation_in; [exact P | exact H].
Qed.

Lemma In_firstn (A : Type) (n : nat) (l : list A) (a : A) :
  In a (firstn n l) -> In a l.
Proof.
  revert n; induction l as [|x l IH]; intros [|n]; simpl; try tauto.
  intros [H | H]; eauto.
Qed.

Lemma In_skipn (A : Type) (n : nat) (l : list A) (a : A) :
  In a (skipn n l) -> In a l.
Proof.
  revert n; induction l as [|x l IH]; intros [|n]; simpl; try tauto.
  eauto.
Qed.

Lemma victims_length C m : C <= size m -> List.length (victims C m) = toRemove C.
Proof.
  intros H. unfold victims. apply firstn_length_le.
  rewrite sortedEntries_length. pose proof (toRemove_le C). unfold size in H. lia.
Qed.

Lemma victims_incl C m : incl (victims C m) m.
Proof.
  intros e He. apply sortedEntries_In.
  unfold victims in He. eapply In_firstn; eauto.
Qed.

Lemma victims_NoDup C m : NoDup (keys m) -> NoDup (map fst (victims C m)).
Proof.
  intros H. apply sorted_NoDup_keys in H. unfold victims.
  rewrite <- (firstn_skipn (toRemove C) (sortedEntries m)) in H.
  rewrite map_app in H. now apply NoDup_app_remove_r in H.
Qed.

Lemma sorted_split (A : Type) (le : A -> A -> Prop) (l : list A) :
  StronglySorted le l ->
  forall n a b, In a (firstn n l) -> In b (skipn n l) -> le a b.
Proof.
  induction 1 as [|x l Hs IH Hall]; intros n a b Ha Hb.
  - destruct n; simpl in Ha; contradiction.
  - destruct n as [|n]; simpl in *; [contradiction|].
    destruct Ha as [<- | Ha].
    + rewrite Forall_forall in Hall. apply Hall.
      eapply In_skipn; eauto.
    + eapply IH; eauto.
Qed.

Lemma same_key_same_entry (V : Type) (m : Map V) k v1 v2 :
  NoDup (keys m) -> In (k, v1) m -> In (k, v2) m -> v1 = v2.
Proof.
  induction m as [|[k' v'] m IH]; simpl; intros Hnd H1 H2; [contradiction|].
  inversion Hnd as [|? ? Hnin Hnd']; subst.
  destruct H1 as [H1 | H1], H2 as [H2 | H2].
  - congruence.
  - inversion H1; subst. exfalso. apply Hnin.
    apply (in_map fst) in H2. exact H2.
  - inversion H2; subst. exfalso. apply Hnin.
    apply (in_map fst) in H1. exact H1.
  - eauto.
Qed.

Lemma evict_In C m e :
  NoDup (keys m) ->
  In e (evict C m) <-> In e m /\ ~ In e (victims C m).
Proof.
  intros Hnd. unfold evict.
  rewrite deleteAll_filter by assumption.
  rewrite filter_In, negb_true_iff.
  split; intros [Hin Hv]; split; try assumption.
  - intros Hvic.
    assert (existsb (fun v => str_eqb (fst v) (fst e)) (victims C m) = true)
      as Hex by (apply existsb_exists; exists e; split;
                 [assumption | apply str_eqb_refl]).
    congruence.
  - destruct (existsb _ _) eqn:Hex; [|reflexivity].
    apply existsb_exists in Hex. destruct Hex as [v [Hvin Hk]].
    apply str_eqb_eq in Hk. exfalso. apply Hv.
    destruct v as [kv ev], e as [ke ee]. simpl in Hk. subst ke.
    rewrite <- (same_key_same_entry _ m kv ev ee Hnd); auto.
    now apply victims_incl in Hvin.
Qed.

Lemma evict_size C m :
  NoDup (keys m) -> C <= size m -> size (evict C m) + toRemove C = size m.
Proof.
  intros Hnd HC. rewrite <- (victims_length C m HC).
  apply deleteAll_size; [assumption | now apply victims_NoDup |].
  intros k Hk. apply in_map_iff in Hk. destruct Hk as [e [<- He]].
  apply in_map. now apply victims_incl in He.
Qed.

Lemma evict_NoDup C m : NoDup (keys m) -> NoDup (keys (evict C m)).
Proof. apply deleteAll_NoDup. Qed.

Lemma victims_oldest C m v s :
  In v (victims C m) -> In s m -> ~ In s (victims C m) ->
  (lastAccessed (snd v) <= lastAccessed (snd s))%Z.
Proof.
  intros Hv Hs Hns.
  pose proof (sort_sorted _ (fun e => lastAccessed (snd e)) m) as Hsorted.
  apply (sorted_split _ _ _ Hsorted (toRemove C)); [exact Hv|].
  apply sortedEntries_In in Hs. unfold sortedEntries in Hs.
  change (sort byLastAccessed m) with
    (sort (fun a b => (lastAccessed (snd a) - lastAccessed (snd b))%Z) m) in Hs.
  rewrite <- (firstn_skipn (toRemove C)) in Hs.
  apply in_app_or in Hs. destruct Hs as [Hs | Hs]; [contradiction | exact Hs].
Qed.

End EvictionFacts.

(** ** Insertion into the two caches *)

Module PutFacts.
Import JS JSFacts FastCacheFacts EvictionFacts Scenarios.
Module F := FastTranslationHelper.
Module D := TranslationHelper.

Lemma fast_put_eq C key r now m :
  F.cacheTranslationWith C key r now m
  = set key {| F.result := r; F.accessCount := 1; F.lastAccessed := now |}
      (if C <=? size m then F.evict C m else m).
Proof. reflexivity. Qed.

Lemma fast_put_bounded C key r now m :
  5 <= C -> NoDup (keys m) -> size m <= C ->
  NoDup (keys (F.cacheTranslationWith C key r now m))
  /\ size (F.cacheTranslationWith C key r now m) <= C.
Proof.
  intros HC Hnd Hsz. rewrite fast_put_eq.
  destruct (C <=? size m) eqn:E.
  - apply Nat.leb_le in E.
    pose proof (evict_size C m Hnd E) as Hev.
    pose proof (toRemove_pos C HC) as Hpos.
    split; [apply NoDup_keys_set, evict_NoDup; assumption|].
    eapply Nat.le_trans; [apply size_set_le|]. lia.
  - apply Nat.leb_gt in E.
    split; [now apply NoDup_keys_set|].
    eapply Nat.le_trans; [apply size_set_le|]. lia.
Qed.

Lemma fast_puts_bounded C puts m :
  5 <= C -> NoDup (keys m) -> size m <= C ->
  NoDup (keys (fold_left (fastPut C) puts m))
  /\ size (fold_left (fastPut C) puts m) <= C.
Proof.
  intros HC. revert m.
  induction puts as [|[[k r] t] puts IH]; simpl; intros m Hnd Hsz; [auto|].
  destruct (fast_put_bounded C k r t m HC Hnd Hsz). now apply IH.
Qed.

Lemma dispatcher_put_full C key r (m : Map D.TranslationResult) :
  C <= size m -> D.cacheTranslationWith C key r m = set key r (tl m).
Proof.
  intros H. unfold D.cacheTranslationWith.
  apply Nat.leb_le in H. rewrite H.
  destruct m as [|[k v] m]; simpl; [reflexivity|].
  now rewrite str_eqb_refl.
Qed.

Lemma dispatcher_put_bounded C key r (m : Map D.TranslationResult) :
  1 <= C -> size m <= C -> size (D.cacheTranslationWith C key r m) <= C.
Proof.
  intros HC Hsz. destruct (C <=? size m) eqn:E.
  - apply Nat.leb_le in E. rewrite dispatcher_put_full by assumption.
    eapply Nat.le_trans; [apply size_set_le|].
    destruct m; unfold size in *; simpl in *; lia.
  - unfold D.cacheTranslationWith. rewrite E. apply Nat.leb_gt in E.
    eapply Nat.le_trans; [apply size_set_le|]. lia.
Qed.

Lemma dispatcher_puts_bounded C puts (m : Map D.TranslationResult) :
  1 <= C -> size m <= C -> size (fold_left (dispatcherPut C) puts m) <= C.
Proof.
  intros HC. revert m.
  induction puts as [|[k r] puts IH]; simpl; intros m Hsz; [auto|].
  apply IH. now apply dispatcher_put_bounded.
Qed.

(** C4.  In the fast helper, an insert that finds the cache at
    or above the capacity C removes exactly floor(C * 0.2) entries, those
    least recently accessed, in one batch, and then inserts the new entry;
    with C = 10 and ten entries, inserting a new key leaves 9.  In the
    dispatcher, an insert that finds the cache at its capacity removes one
    entry only: the one inserted first. *)
Theorem eviction_batch :
  forall (C : nat) (key : jsstring) (r : F.FastTranslationResult) (now : Z)
         (m : Map F.CachedTranslation)
         (keyD : jsstring) (rD : D.TranslationResult)
         (mD : Map D.TranslationResult),
    NoDup (keys m) -> C <= size m -> D.MAX_CACHE_SIZE <= size mD ->
    let gone := F.victims C m in
    let kept := F.evict C m in
    (List.length gone = (C * 2) / 10
     /\ incl gone m
     /\ (forall v s, In v gone -> In s kept ->
           (F.lastAccessed (snd v) <= F.lastAccessed (snd s))%Z)
     /\ (forall e, In e kept <-> In e m /\ ~ In e gone)
     /\ size kept + (C * 2) / 10 = size m
     /\ F.cacheTranslationWith C key r now m
        = set key {| F.result := r; F.accessCount := 1;
                     F.lastAccessed := now |} kept
     /\ (C = 10 -> size m = 10 -> ~ In key (keys m) ->
         size (F.cacheTranslationWith C key r now m) = 9))
    /\ size (fold_left (fastPut 10) (fastPuts 11) []) = 9
    /\ D.cacheTranslationWith D.MAX_CACHE_SIZE keyD rD mD = set keyD rD (tl mD)
    /\ S (size (tl mD)) = size mD.
Proof.
  intros C key r now m keyD rD mD Hnd HC HD gone kept.
  assert (Hput : F.cacheTranslationWith C key r now m
                 = set key {| F.result := r; F.accessCount := 1;
                              F.lastAccessed := now |} kept).
  { rewrite fast_put_eq. apply Nat.leb_le in HC. now rewrite HC. }
  pose proof (evict_size C m Hnd HC) as Hsize. fold kept in Hsize.
  split; [|split; [|split]].
  - split; [apply (victims_length C m HC)|].
    split; [apply victims_incl|].
    split.
    { intros v s Hv Hs. apply (evict_In C m s Hnd) in Hs.
      destruct Hs as [Hs Hns]. eapply victims_oldest; eauto. }
    split; [intros e; apply (evict_In C m e Hnd)|].
    split; [exact Hsize|].
    split; [exact Hput|].
    intros -> Hm Hfresh. rewrite Hput, size_set.
    assert (has key kept = false) as ->.
    { unfold has. destruct (get key kept) eqn:G; [|reflexivity].
      apply get_In in G. apply (evict_In 10 m _ Hnd) in G.
      destruct G as [G _]. apply (in_map fst) in G. contradiction. }
    unfold F.toRemove in Hsize. simpl in Hsize. lia.
  - vm_compute. reflexivity.
  - now apply dispatcher_put_full.
  - destruct mD; unfold size, D.MAX_CACHE_SIZE in *; simpl in *; lia.
Qed.

End PutFacts.

(** ** The dispatcher *)

Module DispatcherFacts.
Import JS JSFacts PutFacts TranslationHelper.

Lemma Qgtb_true (a b : Q) : Qgtb a b = true <-> (b < a)%Q.
Proof.
  unfold Qgtb. rewrite negb_true_iff.
  split; intros H.
  - apply Qnot_le_lt. intros Hle. apply Qle_bool_iff in Hle. congruence.
  - destruct (Qle_bool a b) eqn:E; [|reflexivity].
    apply Qle_bool_iff in E. exfalso. apply (Qlt_not_le _ _ H E).
Qed.

Lemma Qgtb_false (a b : Q) : Qgtb a b = false <-> (a <= b)%Q.
Proof.
  unfold Qgtb. rewrite negb_false_iff. apply Qle_bool_iff.
Qed.


Section Dispatcher.
Variable env : Environment.

Lemma accepted_Some o r :
  accepted o = Some r <-> o = Returned (Some r) /\ (5 # 10 < confidence r)%Q.
Proof.
  destruct o as [|[res|]]; simpl; try (split; [discriminate | intros [H _]; discriminate]).
  destruct (Qgtb (confidence res) (5 # 10)) eqn:E.
  - apply Qgtb_true in E. split.
    + intros H. inversion H; subst. auto.
    + intros [H _]. inversion H; subst. reflexivity.
  - apply Qgtb_false in E. split; [discriminate|].
    intros [H Hlt]. inversion H; subst. exfalso. apply (Qlt_not_le _ _ Hlt E).
Qed.

Lemma callProvider_frame p text tgt src st o st1 :
  callProvider env p text tgt src st = (o, st1) ->
  translationCache st1 = translationCache st
  /\ providers st1 = providers st
  /\ attempted st1 = attempted st ++ [name p].
Proof.
  unfold callProvider, translateOffline, now.
  destruct (str_eqb (name p) (lit "gemini"));
    [intros H; inversion H; subst; simpl; auto|].
  destruct (str_eqb (name p) (lit "google"));
    [intros H; inversion H; subst; simpl; auto|].
  destruct (str_eqb (name p) (lit "offline"));
    intros H; inversion H; subst; simpl; auto.
Qed.

(** The loop of the source computes the chain of the specification. *)
Lemma tryProviders_Dispatch ps key text tgt src st r st' :
  tryProviders env ps key text tgt src st = (r, st') ->
  Dispatch env key text tgt src ps st r st'.
Proof.
  revert st. induction ps as [|p ps IH]; simpl; intros st H.
  - inversion H; subst. constructor.
  - destruct (enabled p) eqn:En; simpl in H.
    + destruct (callProvider env p text tgt src st) as [o st1] eqn:Ecall.
      destruct (accepted o) as [res|] eqn:Eacc.
      * inversion H; subst. apply accepted_Some in Eacc.
        destruct Eacc as [-> Hlt]. now apply dispatch_accepted.
      * destruct o as [|o].
        -- eapply dispatch_error; eauto.
        -- eapply dispatch_soft_failure; eauto.
           intros res ->. simpl in Eacc.
           destruct (Qgtb (confidence res) (5 # 10)) eqn:E; [discriminate|].
           now apply Qgtb_false.
    + apply dispatch_disabled; auto.
Qed.


Lemma Dispatch_deterministic key text tgt src ps st r1 s1 r2 s2 :
  Dispatch env key text tgt src ps st r1 s1 ->
  Dispatch env key text tgt src ps st r2 s2 ->
  r1 = r2 /\ s1 = s2.
Proof.
  intros H. revert r2 s2.
  induction H as [st | p ps st r st' En _ IH | p ps st st1 r st' En Ecall _ IH
                 | p ps st o st1 r st' En Ecall Hlow _ IH
                 | p ps st res st1 En Ecall Hhigh];
    intros r2 s2 H2; inversion H2; subst; try congruence; auto;
    match goal with
    | [ H1 : callProvider _ _ _ _ _ _ = _,
        H3 : callProvider _ _ _ _ _ _ = _ |- _ ] =>
        rewrite H1 in H3; inversion H3; subst; clear H3
    end; auto;
    try (exfalso;
         match goal with
         | [ Hl : forall res, Some ?x = Some res -> _, Hh : Qlt _ _ |- _ ] =>
             apply (Qlt_not_le _ _ Hh); now apply Hl
         end).
Qed.

Lemma Dispatch_frame key text tgt src ps st r st' :
  Dispatch env key text tgt src ps st r st' ->
  providers st' = providers st
  /\ (exists calls,
        attempted st' = attempted st ++ calls
        /\ (enabledNames ps <> [] -> calls <> [])
        /\ (r = None -> calls = enabledNames ps))
  /\ match r with
     | Some res =>
         (5 # 10 < confidence res)%Q
         /\ translationCache st'
            = cacheTranslationWith MAX_CACHE_SIZE key res (translationCache st)
     | None => translationCache st' = translationCache st
     end.
Proof.
  induction 1 as [st | p ps st r st' En _ IH | p ps st st1 r st' En Ecall _ IH
                 | p ps st o st1 r st' En Ecall Hlow _ IH
                 | p ps st res st1 En Ecall Hhigh].
  - split; [reflexivity|]. split; [|reflexivity].
    exists []. rewrite app_nil_r. auto.
  - unfold enabledNames in *. simpl. rewrite En. exact IH.
  - apply callProvider_frame in Ecall. destruct Ecall as [Ec [Ep Ea]].
    destruct IH as [IHp [[calls [IHa [_ IHn]]] IHc]].
    split; [congruence|]. split.
    + exists (name p :: calls). rewrite IHa, Ea, <- app_assoc. simpl.
      split; [reflexivity|]. split; [discriminate|].
      intros Hr. unfold enabledNames in *. simpl. rewrite En. simpl.
      now rewrite IHn.
    + destruct r; [destruct IHc; split; congruence | congruence].
  - apply callProvider_frame in Ecall. destruct Ecall as [Ec [Ep Ea]].
    destruct IH as [IHp [[calls [IHa [_ IHn]]] IHc]].
    split; [congruence|]. split.
    + exists (name p :: calls). rewrite IHa, Ea, <- app_assoc. simpl.
      split; [reflexivity|]. split; [discriminate|].
      intros Hr. unfold enabledNames in *. simpl. rewrite En. simpl.
      now rewrite IHn.
    + destruct r; [destruct IHc; split; congruence | congruence].
  - apply callProvider_frame in Ecall. destruct Ecall as [Ec [Ep Ea]].
    split; [simpl; congruence|]. split.
    + exists [name p]. simpl. split; [exact Ea|].
      split; [discriminate | discriminate].
    + split; [exact Hhigh|]. simpl. unfold cacheTranslation. simpl.
      now rewrite Ec.
Qed.

Lemma put_get key res (m : Map TranslationResult) :
  get key (cacheTranslationWith MAX_CACHE_SIZE key res m) = Some res.
Proof. unfold cacheTranslationWith. apply get_set_same. Qed.

Lemma translateText_hit text tgt src st r :
  get (cacheKeyOf text (targetOf tgt) src) (translationCache st) = Some r ->
  translateText env text tgt src st = (r, st).
Proof. unfold translateText. now intros ->. Qed.

Lemma translateText_miss text tgt src st :
  get (cacheKeyOf text (targetOf tgt) src) (translationCache st) = None ->
  exists r st',
    Dispatch env (cacheKeyOf text (targetOf tgt) src) text (targetOf tgt) src
      (sort byPriority (providers st))
      (with_providers (sort byPriority (providers st)) st) r st'
    /\ translateText env text tgt src st
       = match r with
         | Some res => (res, st')
         | None =>
             (fallbackResult text src (Date_now env (clock st')),
              with_clock (S (clock st')) st')
         end.
Proof.
  intros Hmiss. unfold translateText. rewrite Hmiss.
  simpl providers.
  destruct (tryProviders env (sort byPriority (providers st))
              (cacheKeyOf text (targetOf tgt) src) text (targetOf tgt) src
              (with_providers (sort byPriority (providers st)) st))
    as [r st'] eqn:E.
  exists r, st'. split; [now apply tryProviders_Dispatch|].
  destruct r; reflexivity.
Qed.

Lemma sort_sorted_id (ps : list TranslationProvider) :
  StronglySorted (fun a b => (priority a <= priority b)%Z) ps ->
  sort byPriority ps = ps.
Proof.
  induction 1 as [|p ps Hs IH Hall]; simpl; [reflexivity|].
  rewrite IH. destruct ps as [|q ps]; simpl; [reflexivity|].
  inversion Hall as [|? ? Hpq _]; subst.
  unfold byPriority.
  destruct (0 <? priority p - priority q)%Z eqn:E; [|reflexivity].
  apply Z.ltb_lt in E. lia.
Qed.

Lemma byPriority_sorted (ps : list TranslationProvider) :
  StronglySorted (fun a b => (priority a <= priority b)%Z)
    (sort byPriority ps).
Proof. exact (sort_sorted _ priority ps). Qed.

(** C5.  On a cache miss the providers are visited in ascending order of
    priority, the disabled ones skipped; a provider that throws, returns
    nothing or returns a confidence of 0.5 or less is passed over, and the
    first result with a confidence above 0.5 is returned and cached. *)
Theorem provider_chain :
  forall (text : jsstring) (tgt src : option jsstring) (st : state),
    let key := cacheKeyOf text (targetOf tgt) src in
    let order := sort byPriority (providers st) in
    get key (translationCache st) = None ->
    StronglySorted (fun a b => (priority a <= priority b)%Z) order
    /\ Permutation (providers st) order
    /\ (forall v, filter (fun p => (priority p =? v)%Z) order
                  = filter (fun p => (priority p =? v)%Z) (providers st))
    /\ exists r st',
         Dispatch env key text (targetOf tgt) src order
           (with_providers order st) r st'
         /\ match r with
            | Some res =>
                translateText env text tgt src st = (res, st')
                /\ (5 # 10 < confidence res)%Q
                /\ get key (translationCache st') = Some res
            | None =>
                translateText env text tgt src st
                = (fallbackResult text src (Date_now env (clock st')),
                   with_clock (S (clock st')) st')
                /\ translationCache st' = translationCache st
            end.
Proof.
  intros text tgt src st key order Hmiss.
  split; [apply byPriority_sorted|].
  split; [exact (sort_perm _ priority (providers st))|].
  split; [intros v; exact (sort_stable _ priority v (providers st))|].
  destruct (translateText_miss text tgt src st Hmiss) as [r [st' [HD Ht]]].
  exists r, st'. split; [exact HD|].
  apply Dispatch_frame in HD. destruct HD as [_ [_ Hc]].
  destruct r as [res|].
  - destruct Hc as [Hconf Hcache]. split; [exact Ht|]. split; [exact Hconf|].
    rewrite Hcache. apply put_get.
  - split; [exact Ht | exact Hc].
Qed.

(** C2.  When the chain is exhausted the caller gets the
    original text back with confidence 0, the provider tag "offline" and
    the requested source language or "unknown"; the cache is left as it
    was, so that the same request made next goes through the providers
    again. *)
Theorem exhausted_fallback :
  forall (text : jsstring) (tgt src : option jsstring) (st st' : state),
    let key := cacheKeyOf text (targetOf tgt) src in
    let order := sort byPriority (providers st) in
    get key (translationCache st) = None ->
    Dispatch env key text (targetOf tgt) src order (with_providers order st)
      None st' ->
    let r := fst (translateText env text tgt src st) in
    let st1 := snd (translateText env text tgt src st) in
    (originalText r = text
     /\ translatedText r = text
     /\ confidence r = 0%Q
     /\ provider r = lit "offline"
     /\ detectedLanguage r = or_default src (lit "unknown"))
    /\ translationCache st1 = translationCache st
    /\ get key (translationCache st1) = None
    /\ attempted st1 = attempted st ++ enabledNames order
    /\ exists r2 st2 calls,
         Dispatch env key text (targetOf tgt) src order st1 r2 st2
         /\ attempted st2 = attempted st1 ++ calls
         /\ (enabledNames order <> [] -> calls <> [])
         /\ (r2 = None -> calls = enabledNames order)
         /\ translateText env text tgt src st1
            = match r2 with
              | Some res => (res, st2)
              | None =>
                  (fallbackResult text src (Date_now env (clock st2)),
                   with_clock (S (clock st2)) st2)
              end.
Proof.
  intros text tgt src st st' key order Hmiss Hex r st1.
  subst key order.
  destruct (translateText_miss text tgt src st Hmiss) as [r0 [st0 [HD Ht]]].
  destruct (Dispatch_deterministic _ _ _ _ _ _ _ _ _ _ HD Hex) as [-> ->].
  pose proof (Dispatch_frame _ _ _ _ _ _ _ _ Hex) as [Hp [[calls [Ha [_ Hn]]] Hc]].
  subst r st1. rewrite Ht. simpl.
  assert (Hc1 : translationCache (with_clock (S (clock st')) st')
                = translationCache st) by (simpl; exact Hc).
  split; [repeat split|].
  split; [exact Hc|]. split; [rewrite Hc; exact Hmiss|].
  split; [rewrite Ha, (Hn eq_refl); reflexivity|].
  assert (Hmiss1 : get (cacheKeyOf text (targetOf tgt) src)
                     (translationCache (with_clock (S (clock st')) st'))
                   = None) by (rewrite Hc1; exact Hmiss).
  destruct (translateText_miss text tgt src _ Hmiss1) as [r2 [st2 [HD2 Ht2]]].
  simpl providers in HD2. simpl in Hp. rewrite Hp in HD2.
  rewrite (sort_sorted_id _ (byPriority_sorted (providers st))) in HD2.
  assert (Hsame : with_providers (sort byPriority (providers st))
                    (with_clock (S (clock st')) st')
                  = with_clock (S (clock st')) st').
  { destruct st'; unfold with_providers, with_clock; simpl in *.
    now rewrite Hp. }
  rewrite Hsame in HD2.
  pose proof (Dispatch_frame _ _ _ _ _ _ _ _ HD2)
    as [_ [[calls2 [Ha2 [Hne2 Hn2]]] _]].
  exists r2, st2, calls2. repeat split; auto.
Qed.

(** What a call of [translateText] does to the cache: nothing, or one
    insertion of a result with a confidence above 0.5. *)
Lemma translateText_cache text tgt src st :
  let st1 := snd (translateText env text tgt src st) in
  translationCache st1 = translationCache st
  \/ exists res,
       (5 # 10 < confidence res)%Q
       /\ translationCache st1
          = cacheTranslationWith MAX_CACHE_SIZE
              (cacheKeyOf text (targetOf tgt) src) res (translationCache st).
Proof.
  simpl.
  destruct (get (cacheKeyOf text (targetOf tgt) src) (translationCache st))
    as [r|] eqn:G.
  - rewrite (translateText_hit _ _ _ _ _ G). now left.
  - destruct (translateText_miss text tgt src st G) as [r [st' [HD Ht]]].
    rewrite Ht. apply Dispatch_frame in HD. destruct HD as [_ [_ Hc]].
    destruct r as [res|]; simpl.
    + right. exists res. exact Hc.
    + left. exact Hc.
Qed.


Lemma perform_bounded st c :
  size (translationCache st) <= MAX_CACHE_SIZE ->
  size (translationCache (perform env st c)) <= MAX_CACHE_SIZE.
Proof.
  intros H. destruct c as [text tgt src | nm b |]; simpl.
  - destruct (translateText_cache text tgt src st) as [-> | [res [Hr ->]]];
      [assumption|].
    apply dispatcher_put_bounded; [unfold MAX_CACHE_SIZE; lia | assumption].
  - assumption.
  - unfold size, MAX_CACHE_SIZE. simpl. lia.
Qed.

Lemma run_invariant (P : Map TranslationResult -> Prop) :
  (forall st c, P (translationCache st) ->
                P (translationCache (perform env st c))) ->
  forall cs st, P (translationCache st) ->
                P (translationCache (run env cs st)).
Proof.
  intros Hstep. induction cs as [|c cs IH]; simpl; intros st H; [exact H|].
  apply IH, Hstep, H.
Qed.

(** A confident answer is answered again from the cache, as it is. *)
Lemma translateText_again text tgt src st r1 st1 :
  translateText env text tgt src st = (r1, st1) ->
  (5 # 10 < confidence r1)%Q ->
  translateText env text tgt src st1 = (r1, st1)
  /\ get (cacheKeyOf text (targetOf tgt) src) (translationCache st1)
     = Some r1.
Proof.
  intros Ht Hconf.
  destruct (get (cacheKeyOf text (targetOf tgt) src) (translationCache st))
    as [r|] eqn:G.
  - rewrite (translateText_hit _ _ _ _ _ G) in Ht. inversion Ht; subst.
    split; [now apply translateText_hit | exact G].
  - destruct (translateText_miss text tgt src st G) as [r [st' [HD Hm]]].
    rewrite Hm in Ht. apply Dispatch_frame in HD.
    destruct HD as [_ [_ Hc]]. destruct r as [res|].
    + inversion Ht; subst. destruct Hc as [_ Hc].
      assert (get (cacheKeyOf text (targetOf tgt) src) (translationCache st1)
              = Some r1) as G1 by (rewrite Hc; apply put_get).
      split; [now apply translateText_hit | exact G1].
    + inversion Ht; subst. simpl in Hconf. exfalso.
      revert Hconf. unfold Qlt. simpl. lia.
Qed.

End Dispatcher.

(** [setProviderEnabled] on the list of providers. *)
Lemma enableFirst_spec nm b ps :
  (exists i p,
      nth_error ps i = Some p
      /\ name p = nm
      /\ (forall j q, j < i -> nth_error ps j = Some q -> name q <> nm)
      /\ nth_error (enableFirst nm b ps) i = Some (setEnabled b p)
      /\ (forall j, j <> i ->
            nth_error (enableFirst nm b ps) j = nth_error ps j))
  \/ ((forall p, In p ps -> name p <> nm) /\ enableFirst nm b ps = ps).
Proof.
  induction ps as [|p ps IH]; simpl.
  - right. split; [intros p [] | reflexivity].
  - case_key (name p) nm.
    + left. exists 0, p. simpl. repeat split; auto.
      * intros j q Hj. lia.
      * intros [|j] Hj; [congruence | reflexivity].
    + destruct IH as [[i [q [Hi [Hn [Hfirst [Hset Hother]]]]]] | [Hnone Heq]].
      * left. exists (S i), q. simpl. repeat split; auto.
        -- intros [|j] q' Hj Hq'; simpl in Hq'.
           ++ inversion Hq'; subst. exact E.
           ++ eapply Hfirst; [|exact Hq']. lia.
        -- intros [|j] Hj; simpl; [reflexivity|]. apply Hother. lia.
      * right. split.
        -- intros q [<- | Hq]; auto.
        -- now rewrite Heq.
Qed.

Lemma enableFirst_names nm b ps :
  map name (enableFirst nm b ps) = map name ps
  /\ map priority (enableFirst nm b ps) = map priority ps
  /\ List.length (enableFirst nm b ps) = List.length ps.
Proof.
  induction ps as [|p ps [IH1 [IH2 IH3]]]; simpl; [auto|].
  destruct (str_eqb (name p) nm); simpl; [auto|].
  rewrite IH1, IH2, IH3. auto.
Qed.

(** C10.  [setProviderEnabled] sets the flag of the provider with the given
    name (the first one, should the name occur twice) and leaves its name,
    its priority and every other provider as they were; with no provider
    of that name the list is unchanged. *)
Theorem setProviderEnabled_frame :
  forall (nm : jsstring) (b : bool) (st : state),
    let ps := providers st in
    let ps' := providers (setProviderEnabled nm b st) in
    translationCache (setProviderEnabled nm b st) = translationCache st
    /\ map name ps' = map name ps
    /\ map priority ps' = map priority ps
    /\ List.length ps' = List.length ps
    /\ ((exists i p,
           nth_error ps i = Some p
           /\ name p = nm
           /\ (forall j q, j < i -> nth_error ps j = Some q -> name q <> nm)
           /\ nth_error ps' i
              = Some {| name := name p; enabled := b; priority := priority p |}
           /\ (forall j, j <> i -> nth_error ps' j = nth_error ps j))
        \/ ((forall p, In p ps -> name p <> nm) /\ ps' = ps)).
Proof.
  intros nm b st ps ps'. subst ps ps'. simpl.
  destruct (enableFirst_names nm b (providers st)) as [H1 [H2 H3]].
  repeat (split; [assumption || reflexivity|]).
  apply enableFirst_spec.
Qed.

End DispatcherFacts.

(** ** The fast translation helper *)

Module FastFacts.
Import JS JSFacts FastCacheFacts EvictionFacts PutFacts FastTranslationHelper.

Section Fast.
Variable env : Environment.

(** A request found in the cache. *)
Lemma fast_translateText_hit text src tgt st cached :
  get (cacheKeyOf text src tgt) (translationCache st) = Some cached ->
  let r := fst (translateText env text src tgt st) in
  let st1 := snd (translateText env text src tgt st) in
  provider r = lit "cache"
  /\ originalText r = originalText (result cached)
  /\ translatedText r = translatedText (result cached)
  /\ confidence r = confidence (result cached)
  /\ modelCalls st1 = modelCalls st
  /\ cacheHits (performanceStats st1) = (cacheHits (performanceStats st) + 1)%Z
  /\ totalTranslations (performanceStats st1)
     = totalTranslations (performanceStats st)
  /\ translationCache st1
     = set (cacheKeyOf text src tgt) (bump (Date_now env (S (clock st))) cached)
         (translationCache st).
Proof.
  intros G. unfold translateText, now.
  cbn [translationCache with_clock]. rewrite G. simpl. repeat split.
Qed.

(** What a call of [translateText] leaves in the cache. *)
Lemma translateText_cases text src tgt st :
  let key := cacheKeyOf text src tgt in
  let r := fst (translateText env text src tgt st) in
  let st1 := snd (translateText env text src tgt st) in
  (exists cached,
      get key (translationCache st) = Some cached
      /\ translationCache st1
         = set key (bump (Date_now env (S (clock st))) cached)
             (translationCache st))
  \/ (exists t,
        get key (translationCache st) = None
        /\ translationCache st1
           = cacheTranslationWith MAX_CACHE_SIZE key r t (translationCache st))
  \/ (translationCache st1 = translationCache st
      /\ confidence r = 1 # 10).
Proof.
  simpl.
  destruct (get (cacheKeyOf text src tgt) (translationCache st))
    as [cached|] eqn:G.
  - left. exists cached. split; [reflexivity|].
    now apply (fast_translateText_hit text src tgt st cached).
  - right. unfold translateText, now.
    cbn [translationCache with_clock marianTranslators m2m100Translator].
    rewrite G.
    destruct (existsb _ (marianTranslators st)).
    + destruct (marianRun env _ _ _) as [|out score]; simpl.
      * right. split; reflexivity.
      * left. eexists. split; reflexivity.
    + destruct (m2m100Translator st).
      * destruct (m2m100Run env _ _ _ _) as [|out score]; simpl.
        -- right. split; reflexivity.
        -- left. eexists. split; reflexivity.
      * right. split; reflexivity.
Qed.

Lemma fast_put_get C key r t (m : Map CachedTranslation) :
  get key (cacheTranslationWith C key r t m)
  = Some {| result := r; accessCount := 1; lastAccessed := t |}.
Proof. unfold cacheTranslationWith. apply get_set_same. Qed.

(** A confident answer leaves its request in the cache. *)
Lemma translateText_cached text src tgt st :
  let r := fst (translateText env text src tgt st) in
  (5 # 10 < confidence r)%Q ->
  exists cached,
    get (cacheKeyOf text src tgt)
      (translationCache (snd (translateText env text src tgt st)))
    = Some cached
    /\ originalText (result cached) = originalText r
    /\ translatedText (result cached) = translatedText r
    /\ confidence (result cached) = confidence r.
Proof.
  intros r Hconf. subst r.
  destruct (translateText_cases text src tgt st)
    as [[cached [G Hc]] | [[t [G Hc]] | [_ Hlow]]].
  - rewrite Hc. exists (bump (Date_now env (S (clock st))) cached).
    split; [apply get_set_same|].
    destruct (fast_translateText_hit text src tgt st cached G)
      as [_ [Ho [Ht [Hcf _]]]].
    simpl. auto.
  - rewrite Hc. eexists. split; [apply fast_put_get|]. simpl. auto.
  - exfalso. rewrite Hlow in Hconf. revert Hconf. unfold Qlt. simpl. lia.
Qed.

Lemma perform_within st c :
  within (translationCache st) ->
  within (translationCache (perform env st c)).
Proof.
  intros [Hnd Hsz]. destruct c as [text src tgt|]; simpl.
  - destruct (translateText_cases text src tgt st)
      as [[cached [G ->]] | [[t [G ->]] | [-> _]]].
    + split; [now apply NoDup_keys_set|].
      rewrite size_set. unfold has. now rewrite G.
    + apply fast_put_bounded; [unfold MAX_CACHE_SIZE; lia | assumption..].
    + now split.
  - split; [constructor | unfold size; simpl; lia].
Qed.

Lemma run_within cs st :
  within (translationCache st) ->
  within (translationCache (run env cs st)).
Proof.
  revert st. induction cs as [|c cs IH]; simpl; intros st H; [exact H|].
  apply IH, perform_within, H.
Qed.

End Fast.

(** C9.  [clearCache] empties the cache of the fast helper and resets the
    count of cache hits; the other counters keep their values. *)
Theorem clearCache_frame :
  forall st : state,
    let st' := clearCache st in
    translationCache st' = []
    /\ size (translationCache st') = 0
    /\ cacheHits (performanceStats st') = 0%Z
    /\ totalTranslations (performanceStats st')
       = totalTranslations (performanceStats st)
    /\ avgLatency (performanceStats st') = avgLatency (performanceStats st)
    /\ modelLoadTime (performanceStats st') = modelLoadTime (performanceStats st)
    /\ cacheSize (getPerformanceStats st') = 0
    /\ stats (getPerformanceStats st')
       = {| totalTranslations := totalTranslations (performanceStats st);
            cacheHits := 0;
            avgLatency := avgLatency (performanceStats st);
            modelLoadTime := modelLoadTime (performanceStats st) |}.
Proof. intros st. simpl. repeat split. Qed.

End FastFacts.

(** ** The two caches together *)

Module CacheFacts.
Import JS JSFacts PutFacts Scenarios.
Module F := FastTranslationHelper.
Module D := TranslationHelper.

(** C1.  A request answered with a confidence above 0.5 is
    answered from the cache when it is made again.  The fast helper then
    tags the answer "cache", invokes no model, counts one more cache hit
    and bumps the access count and the access time of the entry.  The
    dispatcher returns the stored result as it is, under the tag of the
    provider that produced it, tries no provider and changes nothing. *)
Theorem repeated_request :
  forall (envF : F.Environment) (text src tgt : jsstring) (st : F.state)
         (envD : D.Environment) (textD : jsstring)
         (tgtD srcD : option jsstring) (stD : D.state),
    let r1 := fst (F.translateText envF text src tgt st) in
    let st1 := snd (F.translateText envF text src tgt st) in
    let rD1 := fst (D.translateText envD textD tgtD srcD stD) in
    let stD1 := snd (D.translateText envD textD tgtD srcD stD) in
    (5 # 10 < F.confidence r1)%Q ->
    (5 # 10 < D.confidence rD1)%Q ->
    (exists cached,
        get (F.cacheKeyOf text src tgt) (F.translationCache st1) = Some cached
        /\ let r2 := fst (F.translateText envF text src tgt st1) in
           let st2 := snd (F.translateText envF text src tgt st1) in
           F.provider r2 = lit "cache"
           /\ F.originalText r2 = F.originalText r1
           /\ F.translatedText r2 = F.translatedText r1
           /\ F.confidence r2 = F.confidence r1
           /\ F.modelCalls st2 = F.modelCalls st1
           /\ F.cacheHits (F.performanceStats st2)
              = (F.cacheHits (F.performanceStats st1) + 1)%Z
           /\ get (F.cacheKeyOf text src tgt) (F.translationCache st2)
              = Some {| F.result := F.result cached;
                        F.accessCount := (F.accessCount cached + 1)%Z;
                        F.lastAccessed := F.Date_now envF (S (F.clock st1)) |})
    /\ D.translateText envD textD tgtD srcD stD1 = (rD1, stD1)
    /\ D.attempted (snd (D.translateText envD textD tgtD srcD stD1))
       = D.attempted stD1.
Proof.
  intros envF text src tgt st envD textD tgtD srcD stD r1 st1 rD1 stD1 HF HD.
  split.
  - subst r1 st1.
    destruct (FastFacts.translateText_cached envF text src tgt st HF)
      as [cached [G [Ho [Ht Hc]]]].
    exists cached. split; [exact G|].
    destruct (FastFacts.fast_translateText_hit envF text src tgt _ cached G)
      as [Hp [Ho2 [Ht2 [Hc2 [Hm [Hh [_ Hcache]]]]]]].
    cbv zeta. split; [exact Hp|].
    split; [now rewrite Ho2|]. split; [now rewrite Ht2|].
    split; [now rewrite Hc2|].
    split; [exact Hm|]. split; [exact Hh|].
    rewrite Hcache. apply get_set_same.
  - assert (E : D.translateText envD textD tgtD srcD stD = (rD1, stD1))
      by (subst rD1 stD1; now destruct (D.translateText _ _ _ _ _)).
    destruct (DispatcherFacts.translateText_again envD _ _ _ _ _ _ E HD)
      as [Hagain _].
    split; [exact Hagain | now rewrite Hagain].
Qed.


(** C7.  However many entries are put into them, the cache of the fast
    helper never holds more than 2000 entries and the cache of the
    dispatcher never more than 1000; the same holds along every run of
    calls on the helpers. *)
Theorem cache_within_capacity :
  forall (puts : list (jsstring * F.FastTranslationResult * Z))
         (putsD : list (jsstring * D.TranslationResult))
         (envF : F.Environment) (marian : list jsstring) (m2m100 : bool)
         (csF : list F.Call) (envD : D.Environment) (csD : list D.Call),
    F.MAX_CACHE_SIZE = 2000
    /\ D.MAX_CACHE_SIZE = 1000
    /\ size (fold_left (fastPut F.MAX_CACHE_SIZE) puts []) <= 2000
    /\ size (fold_left (dispatcherPut D.MAX_CACHE_SIZE) putsD []) <= 1000
    /\ size (F.translationCache (F.run envF csF (F.fresh marian m2m100)))
       <= 2000
    /\ size (D.translationCache (D.run envD csD D.initial)) <= 1000.
Proof.
  intros puts putsD envF marian m2m100 csF envD csD.
  split; [reflexivity|]. split; [reflexivity|].
  split; [|split; [|split]].
  - apply fast_puts_bounded;
      [unfold F.MAX_CACHE_SIZE; lia | constructor | unfold size; simpl; lia].
  - apply dispatcher_puts_bounded;
      [unfold D.MAX_CACHE_SIZE; lia | unfold size; simpl; lia].
  - apply (FastFacts.run_within envF csF).
    split; [constructor | unfold size; simpl; lia].
  - apply (DispatcherFacts.run_invariant envD
             (fun m => size m <= D.MAX_CACHE_SIZE)).
    + apply DispatcherFacts.perform_bounded.
    + unfold size; simpl; lia.
Qed.

End CacheFacts.

(** ** The subtitle classifier *)

Module ClassifierFacts.
Import JS Regex SubtitleDetection.

(** C8.  "Hello, world!" is classified as a subtitle of the
    category dialogue with confidence 0.9: the first dialogue rule, a
    capitalised sentence with final punctuation, matches it.  No narrator,
    action or song rule matches, and the text would pass the heuristic
    fallback, which is not reached. *)
Theorem hello_world_is_dialogue :
  let text := lit "Hello, world!" in
  List.length text = 13
  /\ detectSubtitlePattern text
     = {| isSubtitle := true; subtitleType := dialogue; confidence := 9 # 10 |}
  /\ firstMatch subtitlePatterns text = Some dialogue
  /\ test (anchored [upper; Class (range "a" "z"); Star dot;
                     Class (oneOf ".!?")]) text = true
  /\ firstMatch (tl subtitlePatterns) text = None
  /\ ((5 <? List.length text) && (List.length text <? 200)
      && test endsWithPunctuation text
      && negb (test isUrl text)
      && negb (test isNumeric text)) = true.
Proof. vm_compute. repeat split. Qed.

End ClassifierFacts.

(** ** The region monitor *)

Module MonitorFacts.
Import JS AreaSelectionHelper.


Lemma replace_length (A : Type) (i : nat) (v : A) (l : list A) :
  List.length (replace i v l) = List.length l.
Proof.
  revert i; induction l as [|a l IH]; intros [|i]; simpl; auto.
Qed.











End MonitorFacts.

(** ** Concrete runs *)

Module Instances.
Import JS JSFacts Scenarios.
Module F := FastTranslationHelper.
Module D := TranslationHelper.
Module A := AreaSelectionHelper.

(** The dispatcher answers a repeated request under the tag of the
    provider that produced the stored result, not under "cache". *)
Lemma dispatcher_keeps_provider_tag :
  let r1 := fst (D.translateText geminiAnswers greeting None None D.initial) in
  let st1 := snd (D.translateText geminiAnswers greeting None None D.initial) in
  let r2 := fst (D.translateText geminiAnswers greeting None None st1) in
  let st2 := snd (D.translateText geminiAnswers greeting None None st1) in
  (5 # 10 < D.confidence r1)%Q
  /\ D.attempted st2 = D.attempted st1
  /\ D.provider r2 = lit "gemini"
  /\ D.provider r2 <> lit "cache".
Proof.
  vm_compute. split; [reflexivity|]. split; [reflexivity|].
  split; [reflexivity | discriminate].
Qed.

(** The fallback result carries the tag "offline", not "none". *)
Lemma fallback_tagged_offline :
  let r := fst (D.translateText nobodyAnswers greeting None None D.initial) in
  let st1 := snd (D.translateText nobodyAnswers greeting None None D.initial) in
  D.attempted st1 = [lit "gemini"; lit "google"; lit "offline"]
  /\ D.translatedText r = greeting
  /\ D.confidence r = 0%Q
  /\ D.provider r = lit "offline"
  /\ D.provider r <> lit "none".
Proof.
  vm_compute. repeat split. discriminate.
Qed.

(** The dispatcher removes one entry, not a fifth of its capacity. *)
Lemma dispatcher_evicts_one_entry :
  let m' :=
    D.cacheTranslationWith D.MAX_CACHE_SIZE (keyOf 1000)
      (dispatcherResult (keyOf 1000) (8 # 10) (lit "gemini")) fullCache in
  size fullCache = 1000
  /\ D.MAX_CACHE_SIZE <= size fullCache
  /\ get (keyOf 1000) fullCache = None
  /\ F.toRemove D.MAX_CACHE_SIZE = 200
  /\ size m' = 1000
  /\ size m' <> size fullCache - F.toRemove D.MAX_CACHE_SIZE + 1.
Proof.
  vm_compute. repeat split; try discriminate.
  apply Nat.leb_le. reflexivity.
Qed.


(** "Hello, world!" is not classified as unknown with confidence 0.6. *)
Lemma hello_world_not_unknown :
  SubtitleDetection.detectSubtitlePattern (lit "Hello, world!")
  <> {| SubtitleDetection.isSubtitle := true;
        SubtitleDetection.subtitleType := SubtitleDetection.unknown;
        SubtitleDetection.confidence := 6 # 10 |}
  /\ SubtitleDetection.firstMatch SubtitleDetection.subtitlePatterns
       (lit "Hello, world!") <> None.
Proof. vm_compute. split; discriminate. Qed.


(** A request answered by the pair model, and by Gemini, made twice. *)
Lemma repeated_request_witness :
  (5 # 10 < F.confidence
     (fst (F.translateText marianAnswers greeting (lit "zh") (lit "en")
             loaded)))%Q
  /\ (5 # 10 < D.confidence
        (fst (D.translateText geminiAnswers greeting None None D.initial)))%Q
  /\ F.provider
       (fst (F.translateText marianAnswers greeting (lit "zh") (lit "en")
               (snd (F.translateText marianAnswers greeting (lit "zh")
                       (lit "en") loaded))))
     = lit "cache".
Proof.
  assert (H1 : (5 # 10 < F.confidence
                  (fst (F.translateText marianAnswers greeting (lit "zh")
                          (lit "en") loaded)))%Q)
    by (vm_compute; reflexivity).
  assert (H2 : (5 # 10 < D.confidence
                  (fst (D.translateText geminiAnswers greeting None None
                          D.initial)))%Q)
    by (vm_compute; reflexivity).
  split; [exact H1|]. split; [exact H2|].
  destruct (CacheFacts.repeated_request marianAnswers greeting (lit "zh")
              (lit "en") loaded geminiAnswers greeting None None D.initial
              H1 H2) as [[cached [_ [Hp _]]] _].
  exact Hp.
Defined.

(** A request that no provider answers well enough. *)
Lemma exhausted_fallback_witness :
  let key := D.cacheKeyOf greeting (lit "en") None in
  let order := sort D.byPriority (D.providers D.initial) in
  let st' :=
    snd (D.tryProviders nobodyAnswers order key greeting (lit "en") None
           (D.with_providers order D.initial)) in
  get key (D.translationCache D.initial) = None
  /\ D.Dispatch nobodyAnswers key greeting (lit "en") None order
       (D.with_providers order D.initial) None st'
  /\ D.provider (fst (D.translateText nobodyAnswers greeting None None
                        D.initial)) = lit "offline"
  /\ D.translationCache
       (snd (D.translateText nobodyAnswers greeting None None D.initial))
     = D.translationCache D.initial.
Proof.
  intros key order st'.
  assert (H1 : get key (D.translationCache D.initial) = None)
    by reflexivity.
  assert (H2 : D.Dispatch nobodyAnswers key greeting (lit "en") None order
                 (D.with_providers order D.initial) None st')
    by (apply DispatcherFacts.tryProviders_Dispatch; vm_compute; reflexivity).
  split; [exact H1|]. split; [exact H2|].
  destruct (DispatcherFacts.exhausted_fallback nobodyAnswers greeting None
              None D.initial st' H1 H2) as [[_ [_ [_ [Hp _]]]] [Hc _]].
  split; [exact Hp | exact Hc].
Defined.

(** The chain of the initial dispatcher on a request that is not cached. *)
Lemma provider_chain_witness :
  let key := D.cacheKeyOf greeting (lit "en") None in
  let order := sort D.byPriority (D.providers D.initial) in
  get key (D.translationCache D.initial) = None
  /\ exists r st',
       D.Dispatch nobodyAnswers key greeting (lit "en") None order
         (D.with_providers order D.initial) r st'.
Proof.
  intros key order.
  assert (H1 : get key (D.translationCache D.initial) = None)
    by reflexivity.
  split; [exact H1|].
  destruct (DispatcherFacts.provider_chain nobodyAnswers greeting None None
              D.initial H1) as [_ [_ [_ [r [st' [HD _]]]]]].
  exists r, st'. exact HD.
Defined.

(** The eleventh key in a fast cache of capacity ten. *)
Lemma eviction_batch_witness :
  NoDup (keys tenEntries)
  /\ 10 <= size tenEntries
  /\ D.MAX_CACHE_SIZE <= size fullCache
  /\ size (F.cacheTranslationWith 10 (keyOf 10)
             (fastResult (keyOf 10) (8 # 10)) 10 tenEntries) = 9.
Proof.
  assert (H1 : NoDup (keys tenEntries)).
  { vm_compute.
    repeat (constructor; [simpl; intuition discriminate|]). constructor. }
  assert (H2 : 10 <= size tenEntries) by (apply Nat.leb_le; reflexivity).
  assert (H3 : D.MAX_CACHE_SIZE <= size fullCache)
    by (apply Nat.leb_le; vm_compute; reflexivity).
  split; [exact H1|]. split; [exact H2|]. split; [exact H3|].
  destruct (PutFacts.eviction_batch 10 (keyOf 10)
              (fastResult (keyOf 10) (8 # 10)) 10%Z tenEntries
              (keyOf 1000)
              (dispatcherResult (keyOf 1000) (8 # 10) (lit "gemini"))
              fullCache H1 H2 H3) as [[_ [_ [_ [_ [_ [_ Hnine]]]]]] _].
  apply Hnine; [reflexivity | reflexivity |].
  vm_compute. intuition discriminate.
Defined.


(** A tick that fires while the callback of an earlier tick checks the
    second region starts no second check of that region. *)
Lemma later_region_not_checked_twice :
  ~ A.serial MoreScenarios.twoRegions A.initial
  /\ A.inFlight 0 (A.run MoreScenarios.twoRegions A.initial) = 1
  /\ A.inFlight 1 (A.run MoreScenarios.twoRegions A.initial) = 1.
Proof.
  split; [|split; reflexivity].
  simpl. intros [_ [_ [_ [_ [_ [_ [H _]]]]]]].
  specialize (H eq_refl). discriminate H.
Qed.

End Instances.

(** ** Cleaning of recognised text *)

Module CleaningFacts.
Import JS Regex TextCleaning.

Lemma collapseRuns_class p b s :
  Forall (fun c => p c = true -> c = 32%N) (collapseRuns p b s).
Proof.
  revert b. induction s as [|c s IH]; intros b; simpl; [constructor|].
  destruct (p c) eqn:E.
  - destruct b; [apply IH|]. constructor; [reflexivity | apply IH].
  - constructor; [congruence | apply IH].
Qed.

Lemma collapseRuns_length p b s :
  List.length (collapseRuns p b s) <= List.length s.
Proof.
  revert b. induction s as [|c s IH]; intros b; simpl; [lia|].
  pose proof (IH true) as Ht. pose proof (IH false) as Hf.
  destruct (p c); [destruct b|]; simpl; lia.
Qed.

(** Replacing the runs of line feeds first changes nothing for the
    replacement of the runs of white space. *)
Lemma collapse_newlines_first b' b s :
  (b' = true -> b = true) ->
  collapseRuns space b (collapseRuns (unit 10) b' s) = collapseRuns space b s.
Proof.
  revert b' b. induction s as [|c s IH]; intros b' b Hb; simpl; [reflexivity|].
  destruct (unit 10 c) eqn:E.
  - unfold unit in E. apply N.eqb_eq in E. subst c.
    change (space 10) with true. cbv iota.
    destruct b'.
    + rewrite (Hb eq_refl). now apply IH.
    + simpl. destruct b; rewrite (IH true true); auto.
  - simpl. destruct (space c).
    + destruct b; rewrite (IH false true); auto; discriminate.
    + rewrite (IH false false); auto; discriminate.
Qed.

Lemma trimStart_suffix s : exists k, trimStart s = skipn k s.
Proof.
  induction s as [|c s [k IH]]; simpl.
  - exists 0. reflexivity.
  - destruct (space c); [exists (S k); exact IH | exists 0; reflexivity].
Qed.

Lemma trimStart_head s c rest : trimStart s = c :: rest -> space c = false.
Proof.
  induction s as [|d s IH]; simpl; [discriminate|].
  destruct (space d) eqn:E; [exact IH|].
  intros H. inversion H; subst. exact E.
Qed.

Lemma trim_prefix s : exists n, trim s = firstn n (trimStart s).
Proof.
  unfold trim. destruct (trimStart_suffix (rev (trimStart s))) as [k ->].
  exists (List.length (trimStart s) - k).
  now rewrite skipn_rev, rev_involutive.
Qed.

Lemma trim_incl s c : In c (trim s) -> In c s.
Proof.
  destruct (trim_prefix s) as [n ->]. intros H.
  apply EvictionFacts.In_firstn in H.
  destruct (trimStart_suffix s) as [k E]. rewrite E in H.
  eapply EvictionFacts.In_skipn; eauto.
Qed.

Lemma trim_length s : List.length (trim s) <= List.length s.
Proof.
  destruct (trim_prefix s) as [n ->]. rewrite length_firstn.
  destruct (trimStart_suffix s) as [k ->]. rewrite length_skipn. lia.
Qed.

Lemma trim_head s c rest : trim s = c :: rest -> space c = false.
Proof.
  destruct (trim_prefix s) as [n ->].
  destruct (trimStart s) as [|d t] eqn:E; destruct n; simpl; try discriminate.
  intros H. inversion H; subst. eapply trimStart_head; eauto.
Qed.

Lemma trim_last s front c : trim s = front ++ [c] -> space c = false.
Proof.
  unfold trim. intros H.
  apply (f_equal (@rev N)) in H. rewrite rev_involutive, rev_app_distr in H.
  simpl in H. eapply trimStart_head; eauto.
Qed.

Lemma cleanWith_spec kept text :
  let out := cleanWith kept text in
  Forall (fun c => kept c = true /\ (space c = true -> c = 32%N)) out
  /\ (forall c rest, out = c :: rest -> space c = false)
  /\ (forall front c, out = front ++ [c] -> space c = false)
  /\ List.length out <= List.length text
  /\ out = trim (keepOnly kept (replaceRuns space text)).
Proof.
  unfold cleanWith. simpl. split; [|split; [|split; [|split]]].
  - apply Forall_forall. intros c Hc. apply trim_incl in Hc.
    unfold keepOnly in Hc. apply filter_In in Hc. destruct Hc as [Hc Hk].
    split; [exact Hk|].
    pose proof (collapseRuns_class space false
                  (replaceRuns (unit 10) text)) as HF.
    rewrite Forall_forall in HF. now apply HF.
  - apply trim_head.
  - apply trim_last.
  - eapply Nat.le_trans; [apply trim_length|].
    unfold keepOnly.
    eapply Nat.le_trans; [apply filter_length_le|].
    eapply Nat.le_trans; [apply collapseRuns_length|].
    apply collapseRuns_length.
  - unfold replaceRuns. rewrite collapse_newlines_first; [reflexivity|].
    discriminate.
Qed.

(** X1.  The text that [cleanExtractedText] and [cleanSubtitleText] return
    consists of kept code units only, its only white space is the plain
    space, it neither begins nor ends with a space and it is no longer
    than the input; the replacement of the line feeds is subsumed by the
    replacement of the white space. *)
Theorem cleaned_text :
  forall text : jsstring,
    (Forall (fun c => keptByDispatcher c = true
                      /\ (space c = true -> c = 32%N))
       (cleanExtractedText text)
     /\ (forall c rest, cleanExtractedText text = c :: rest -> space c = false)
     /\ (forall front c,
           cleanExtractedText text = front ++ [c] -> space c = false)
     /\ List.length (cleanExtractedText text) <= List.length text
     /\ cleanExtractedText text
        = trim (keepOnly keptByDispatcher (replaceRuns space text)))
    /\ (Forall (fun c => keptByFast c = true /\ (space c = true -> c = 32%N))
          (cleanSubtitleText text)
        /\ (forall c rest,
              cleanSubtitleText text = c :: rest -> space c = false)
        /\ (forall front c,
              cleanSubtitleText text = front ++ [c] -> space c = false)
        /\ List.length (cleanSubtitleText text) <= List.length text
        /\ cleanSubtitleText text
           = trim (keepOnly keptByFast (replaceRuns space text))).
Proof.
  intros text. split.
  - exact (cleanWith_spec keptByDispatcher text).
  - exact (cleanWith_spec keptByFast text).
Qed.

End CleaningFacts.

(** ** More on the fast translation helper *)

Module FastPipelineFacts.
Import JS JSFacts Regex TextCleaning FastTranslationHelper FastPipeline.

Lemma between_false lo hi c : (c < lo)%N -> between lo hi c = false.
Proof.
  intros H. unfold between. apply andb_false_iff. left.
  apply N.leb_gt. exact H.
Qed.

Lemma existsb_below (p : N -> bool) (bound : N) text :
  (forall c, (c < bound)%N -> p c = false) ->
  Forall (fun c => (c < bound)%N) text -> existsb p text = false.
Proof.
  intros Hp. induction 1 as [|c text Hc _ IH]; simpl; [reflexivity|].
  now rewrite (Hp c Hc), IH.
Qed.

(** X2.  [detectLanguage] always answers with one of seven codes, each a
    key of the table of supported languages; a text with one Han
    ideograph is Chinese whatever else it holds, and a text below U+0600
    (Latin, Greek or Cyrillic letters included) is English. *)
Theorem detectLanguage_answers :
  forall text : jsstring,
    In (detectLanguage text) getSupportedLanguages
    /\ In (detectLanguage text)
         [lit "zh"; lit "ja"; lit "ko"; lit "ar"; lit "hi"; lit "th";
          lit "en"]
    /\ (existsb (between 19968 40959) text = true ->
        detectLanguage text = lit "zh")
    /\ (Forall (fun c => (c < 1536)%N) text -> detectLanguage text = lit "en").
Proof.
  intros text. split; [|split; [|split]].
  - unfold detectLanguage, hasUnit.
    repeat match goal with
           | |- context [if ?b then _ else _] => destruct b
           end; vm_compute; tauto.
  - unfold detectLanguage, hasUnit.
    repeat match goal with
           | |- context [if ?b then _ else _] => destruct b
           end; simpl; tauto.
  - intros H. unfold detectLanguage, hasUnit. now rewrite H.
  - intros H. unfold detectLanguage, hasUnit.
    rewrite !(existsb_below _ 1536 text) by
      (try assumption; intros c Hc; unfold either;
       rewrite ?between_false by lia; reflexivity).
    reflexivity.
Qed.

Lemma split_at_first (a : N) (x y u v : jsstring) :
  ~ In a x -> ~ In a y -> x ++ a :: u = y ++ a :: v -> x = y /\ u = v.
Proof.
  revert y. induction x as [|c x IH]; intros [|d y] Hx Hy H; simpl in *.
  - inversion H. auto.
  - inversion H; subst. exfalso. apply Hy. auto.
  - inversion H; subst. exfalso. apply Hx. auto.
  - inversion H; subst.
    destruct (IH y) as [-> ->]; auto.
Qed.

Lemma split_at_last (a : N) (x y u v : jsstring) :
  ~ In a u -> ~ In a v -> x ++ a :: u = y ++ a :: v -> x = y /\ u = v.
Proof.
  intros Hu Hv H. apply (f_equal (@rev N)) in H.
  rewrite !rev_app_distr in H. simpl in H. rewrite <- !app_assoc in H.
  simpl in H.
  apply split_at_first in H; try (rewrite <- in_rev; assumption).
  destruct H as [H1 H2].
  split; [now apply rev_inj | now apply rev_inj].
Qed.

(** X3.  Two requests whose language codes hold no bar never share a key
    of the cache, bars in the text notwithstanding. *)
Theorem cacheKey_injective :
  forall text src tgt text' src' tgt' : jsstring,
    barFree src -> barFree tgt -> barFree src' -> barFree tgt' ->
    cacheKeyOf text src tgt = cacheKeyOf text' src' tgt' ->
    text = text' /\ src = src' /\ tgt = tgt'.
Proof.
  unfold barFree, cacheKeyOf. intros text src tgt text' src' tgt'
    Hs Ht Hs' Ht' H.
  change (lit "|") with [124%N] in H. simpl in H.
  assert (H' : (text ++ 124%N :: src) ++ 124%N :: tgt
               = (text' ++ 124%N :: src') ++ 124%N :: tgt')
    by (rewrite <- !app_assoc; exact H).
  apply split_at_last in H'; try assumption.
  destruct H' as [H1 ->].
  apply split_at_last in H1; try assumption.
  destruct H1 as [-> ->]. auto.
Qed.

Section Outcomes.
Variable env : Environment.

(** The three ways a call of [translateText] can go. *)
Lemma translateText_outcome text src tgt st :
  let key := cacheKeyOf text src tgt in
  let r := fst (translateText env text src tgt st) in
  let st1 := snd (translateText env text src tgt st) in
  let p := performanceStats st in
  let p1 := performanceStats st1 in
  marianTranslators st1 = marianTranslators st
  /\ m2m100Translator st1 = m2m100Translator st
  /\ isInitialized st1 = isInitialized st
  /\ ((exists cached,
         get key (translationCache st) = Some cached
         /\ provider r = lit "cache"
         /\ confidence r = confidence (result cached)
         /\ translationCache st1
            = set key (bump (Date_now env (S (clock st))) cached)
                (translationCache st)
         /\ totalTranslations p1 = totalTranslations p
         /\ cacheHits p1 = (cacheHits p + 1)%Z
         /\ modelCalls st1 = modelCalls st)
      \/ (exists out score d nm t,
            get key (translationCache st) = None
            /\ ((nm = src ++ lit "-" ++ tgt /\ d = 8 # 10
                 /\ provider r = lit "marian")
                \/ (nm = lit "m2m100" /\ d = 7 # 10
                    /\ provider r = lit "m2m100"
                    /\ existsb (str_eqb (src ++ lit "-" ++ tgt))
                         (marianTranslators st) = false))
            /\ confidence r = scoreOr score d
            /\ translatedText r = out
            /\ originalText r = text
            /\ translationCache st1
               = cacheTranslationWith MAX_CACHE_SIZE key r t
                   (translationCache st)
            /\ totalTranslations p1 = (totalTranslations p + 1)%Z
            /\ cacheHits p1 = cacheHits p
            /\ modelCalls st1 = modelCalls st ++ [nm])
      \/ (get key (translationCache st) = None
          /\ provider r = lit "cache"
          /\ confidence r = 1 # 10
          /\ translatedText r = text
          /\ originalText r = text
          /\ translationCache st1 = translationCache st
          /\ totalTranslations p1 = (totalTranslations p + 1)%Z
          /\ cacheHits p1 = cacheHits p
          /\ (modelCalls st1 = modelCalls st
              \/ (modelCalls st1 = modelCalls st ++ [src ++ lit "-" ++ tgt]
                  /\ existsb (str_eqb (src ++ lit "-" ++ tgt))
                       (marianTranslators st) = true)
              \/ modelCalls st1 = modelCalls st ++ [lit "m2m100"]))).
Proof.
  cbv zeta. unfold translateText, now.
  cbn [translationCache with_clock marianTranslators m2m100Translator
       modelCalls].
  destruct (get (cacheKeyOf text src tgt) (translationCache st))
    as [cached|] eqn:G.
  - simpl. repeat (split; [reflexivity|]).
    left. exists cached. repeat split.
  - destruct (existsb _ (marianTranslators st)) eqn:Em.
    + destruct (marianRun env _ _ _) as [|out score]; simpl.
      * repeat (split; [reflexivity|]). right. right.
        repeat (split; [reflexivity|]). right. left. auto.
      * repeat (split; [reflexivity|]). right. left.
        exists out, score, (8 # 10), (src ++ lit "-" ++ tgt).
        eexists. split; [reflexivity|].
        split; [left; repeat split|]. repeat split.
    + destruct (m2m100Translator st) eqn:E2.
      * destruct (m2m100Run env _ _ _ _) as [|out score]; simpl.
        -- rewrite E2. repeat (split; [reflexivity|]). right. right.
           repeat (split; [reflexivity|]). right. right. reflexivity.
        -- rewrite E2. repeat (split; [reflexivity|]). right. left.
           exists out, score, (7 # 10), (lit "m2m100").
           eexists. split; [reflexivity|].
           split; [right; repeat split|]. repeat split.
      * simpl. rewrite E2. repeat (split; [reflexivity|]). right. right.
        repeat (split; [reflexivity|]). left. reflexivity.
Qed.

Lemma no_model_fallback text src tgt st :
  get (cacheKeyOf text src tgt) (translationCache st) = None ->
  existsb (str_eqb (src ++ lit "-" ++ tgt)) (marianTranslators st) = false ->
  m2m100Translator st = false ->
  translateText env text src tgt st
  = translationFailed env text src tgt (Date_now env (clock st))
      (with_clock (S (clock st)) st).
Proof.
  intros G Em E2. unfold translateText, now.
  cbn [translationCache with_clock marianTranslators m2m100Translator].
  now rewrite G, Em, E2.
Qed.

(** X4.  With no model loaded for a request that is not cached, the
    caller gets the text back untranslated, tagged "cache" with confidence
    0.1; nothing is cached and no model is invoked, yet the request
    counts as a translation. *)
Theorem translation_unavailable :
  forall (text src tgt : jsstring) (st : state),
    get (cacheKeyOf text src tgt) (translationCache st) = None ->
    existsb (str_eqb (src ++ lit "-" ++ tgt)) (marianTranslators st) = false ->
    m2m100Translator st = false ->
    let r := fst (translateText env text src tgt st) in
    let st1 := snd (translateText env text src tgt st) in
    originalText r = text
    /\ translatedText r = text
    /\ provider r = lit "cache"
    /\ confidence r = 1 # 10
    /\ translationCache st1 = translationCache st
    /\ modelCalls st1 = modelCalls st
    /\ totalTranslations (performanceStats st1)
       = (totalTranslations (performanceStats st) + 1)%Z
    /\ cacheHits (performanceStats st1) = cacheHits (performanceStats st).
Proof.
  intros text src tgt st G Em E2. cbv zeta.
  rewrite (no_model_fallback text src tgt st G Em E2).
  unfold translationFailed, now. simpl. repeat split.
Qed.

(** X5.  When the pair model of the request is loaded and throws, the
    general model is not tried, loaded or not: the caller gets the
    untranslated text with confidence 0.1, and nothing is cached. *)
Theorem pair_model_failure_is_final :
  forall (text src tgt : jsstring) (st : state),
    get (cacheKeyOf text src tgt) (translationCache st) = None ->
    existsb (str_eqb (src ++ lit "-" ++ tgt)) (marianTranslators st) = true ->
    marianRun env (List.length (modelCalls st)) (src ++ lit "-" ++ tgt) text
    = ModelThrew ->
    let r := fst (translateText env text src tgt st) in
    let st1 := snd (translateText env text src tgt st) in
    translatedText r = text
    /\ provider r = lit "cache"
    /\ confidence r = 1 # 10
    /\ translationCache st1 = translationCache st
    /\ modelCalls st1 = modelCalls st ++ [src ++ lit "-" ++ tgt].
Proof.
  intros text src tgt st G Em Erun. cbv zeta. unfold translateText, now.
  cbn [translationCache with_clock marianTranslators m2m100Translator
       modelCalls].
  rewrite G, Em, Erun. simpl. repeat split.
Qed.

Lemma perform_counts st c :
  let p := performanceStats st in
  let p1 := performanceStats (perform env st c) in
  (0 <= cacheHits p)%Z ->
  (0 <= cacheHits p1)%Z
  /\ (totalTranslations p <= totalTranslations p1)%Z
  /\ match c with
     | Translate _ _ _ =>
         (totalTranslations p1 + cacheHits p1
          = totalTranslations p + cacheHits p + 1)%Z
     | ClearCache =>
         totalTranslations p1 = totalTranslations p /\ cacheHits p1 = 0%Z
     end.
Proof.
  cbv zeta. intros H. destruct c as [text src tgt|]; simpl.
  - destruct (translateText_outcome text src tgt st)
      as [_ [_ [_ [[cached [_ [_ [_ [_ [Ht [Hh _]]]]]]]
                  | [[out [score [d [nm [t [_ [_ [_ [_ [_ [_ [Ht [Hh _]]]]]]]]]]]]]
                    | [_ [_ [_ [_ [_ [_ [Ht [Hh _]]]]]]]]]]]]];
      rewrite Ht, Hh; lia.
  - lia.
Qed.

(** X6.  From the fresh helper, the translations counted and the cache
    hits counted never add up to more than the calls of [translateText]
    made, and add up to exactly that many as long as [clearCache] is not
    called: every call counts once, as a hit or as a translation. *)
Theorem telemetry_counts_calls :
  forall (cs : list Call) (marian : list jsstring) (m2m100 : bool),
    let p := performanceStats (run env cs (fresh marian m2m100)) in
    (0 <= cacheHits p)%Z
    /\ (0 <= totalTranslations p)%Z
    /\ (totalTranslations p + cacheHits p <= Z.of_nat (translations cs))%Z
    /\ (clears cs = 0 ->
        (totalTranslations p + cacheHits p = Z.of_nat (translations cs))%Z).
Proof.
  intros cs marian m2m100.
  assert (Hgen : forall cs st,
             (0 <= cacheHits (performanceStats st))%Z ->
             let p0 := performanceStats st in
             let p := performanceStats (run env cs st) in
             (0 <= cacheHits p)%Z
             /\ (totalTranslations p0 <= totalTranslations p)%Z
             /\ (totalTranslations p + cacheHits p
                 <= totalTranslations p0 + cacheHits p0
                    + Z.of_nat (translations cs))%Z
             /\ (clears cs = 0 ->
                 (totalTranslations p + cacheHits p
                  = totalTranslations p0 + cacheHits p0
                    + Z.of_nat (translations cs))%Z)).
  { clear. induction cs as [|c cs IH]; intros st H0; cbv zeta.
    - simpl. repeat split; lia.
    - change (run env (c :: cs) st) with (run env cs (perform env st c)).
      destruct (perform_counts st c H0) as [H1 [H2 H3]].
      destruct (IH (perform env st c) H1) as [I1 [I2 [I3 I4]]].
      unfold translations, clears in *.
      destruct c as [text src tgt|]; simpl filter; simpl List.length.
      + split; [exact I1|]. split; [lia|]. split; [lia|].
        intros Hc. specialize (I4 Hc). lia.
      + destruct H3 as [H3 H4].
        split; [exact I1|]. split; [lia|]. split; [lia|].
        discriminate. }
  destruct (Hgen cs (fresh marian m2m100)) as [H1 [H2 [H3 H4]]];
    [simpl; lia|].
  simpl in H2, H3, H4. cbv zeta.
  split; [exact H1|]. split; [lia|]. split; [lia|].
  intros Hc. specialize (H4 Hc). lia.
Qed.

Lemma repeated_hits n text src tgt st :
  (exists cached,
      get (cacheKeyOf text src tgt) (translationCache st) = Some cached) ->
  let stn := run env (repeated n text src tgt) st in
  cacheHits (performanceStats stn)
  = (cacheHits (performanceStats st) + Z.of_nat n)%Z
  /\ totalTranslations (performanceStats stn)
     = totalTranslations (performanceStats st)
  /\ modelCalls stn = modelCalls st.
Proof.
  revert st. induction n as [|n IH]; intros st [cached G]; cbv zeta.
  - simpl. repeat split; lia.
  - change (run env (repeated (S n) text src tgt) st)
      with (run env (repeated n text src tgt)
              (snd (translateText env text src tgt st))).
    destruct (translateText_outcome text src tgt st)
      as [_ [_ [_ [[c [Gc [_ [_ [Hc [Ht [Hh Hm]]]]]]]
                  | [[out [score [d [nm [t [Gn _]]]]]] | [Gn _]]]]]];
      try congruence.
    destruct (IH (snd (translateText env text src tgt st))) as [I1 [I2 I3]].
    { rewrite Hc. eexists. apply get_set_same. }
    rewrite I1, I2, I3, Ht, Hh, Hm. repeat split. lia.
Qed.

(** X7.  The hit rate reported is the number of hits over the number of
    translations that were not hits: after one confident translation from
    the fresh helper and n repetitions of the request, one translation
    and n hits are counted, no model is invoked again, and the rate
    reported is n. *)
Theorem hit_rate_counts_hits_per_miss :
  forall (text src tgt : jsstring) (marian : list jsstring) (m2m100 : bool)
         (n : nat),
    let first := translateText env text src tgt (fresh marian m2m100) in
    let stn := run env (repeated n text src tgt) (snd first) in
    (5 # 10 < confidence (fst first))%Q ->
    totalTranslations (performanceStats stn) = 1%Z
    /\ cacheHits (performanceStats stn) = Z.of_nat n
    /\ modelCalls stn = modelCalls (snd first)
    /\ (cacheHitRate (getPerformanceStats stn) == inject_Z (Z.of_nat n))%Q.
Proof.
  intros text src tgt marian m2m100 n first stn Hconf. subst first stn.
  destruct (FastFacts.translateText_cached env text src tgt
              (fresh marian m2m100) Hconf) as [cached [G _]].
  destruct (repeated_hits n text src tgt _ (ex_intro _ cached G))
    as [I1 [I2 I3]].
  destruct (translateText_outcome text src tgt (fresh marian m2m100))
    as [_ [_ [_ [[c [Gc _]]
                | [[out [score [d [nm [t [_ [_ [_ [_ [_ [_ [Ht [Hh _]]]]]]]]]]]]]
                  | [_ [_ [Hlow _]]]]]]]].
  - simpl in Gc. discriminate.
  - simpl in Ht, Hh.
    assert (T : totalTranslations
                  (performanceStats
                     (run env (repeated n text src tgt)
                        (snd (translateText env text src tgt
                                (fresh marian m2m100))))) = 1%Z)
      by (rewrite I2, Ht; reflexivity).
    assert (H : cacheHits
                  (performanceStats
                     (run env (repeated n text src tgt)
                        (snd (translateText env text src tgt
                                (fresh marian m2m100))))) = Z.of_nat n)
      by (rewrite I1, Hh; lia).
    split; [exact T|]. split; [exact H|]. split; [exact I3|].
    unfold getPerformanceStats. cbn [cacheHitRate]. rewrite T, H.
    change (Z.max 1 1) with 1%Z. unfold Qdiv.
    change (/ inject_Z 1)%Q with 1%Q. apply Qmult_1_r.
  - exfalso. rewrite Hlow in Hconf. revert Hconf. unfold Qlt. simpl. lia.
Qed.

Lemma scoreOr_nonzero score d : ~ (d == 0)%Q -> ~ (scoreOr score d == 0)%Q.
Proof.
  intros Hd. unfold scoreOr. destruct score as [q|]; [|exact Hd].
  destruct (Qeq_bool q 0) eqn:E; [exact Hd|].
  now apply Qeq_bool_neq.
Qed.

Lemma In_deleteAll vs (m : Map CachedTranslation) e :
  In e (deleteAll vs m) -> In e m.
Proof.
  revert m. induction vs as [|v vs IH]; simpl; intros m H; [exact H|].
  apply IH in H. eapply In_delete; eauto.
Qed.

Lemma In_put C key r t (m : Map CachedTranslation) e :
  In e (cacheTranslationWith C key r t m) ->
  e = (key, {| result := r; accessCount := 1; lastAccessed := t |})
  \/ In e m.
Proof.
  unfold cacheTranslationWith. intros H. apply In_set in H.
  destruct H as [H | H]; [now left | right].
  destruct (C <=? size m); [|exact H].
  unfold evict in H. eapply In_deleteAll; eauto.
Qed.

(** X8.  No entry of the cache of the fast helper holds a result of
    confidence 0, whatever calls are made: a score of 0, like a missing
    score, gives way to the default 0.8 or 0.7, and a failed translation
    is not cached. *)
Theorem cached_confidence_nonzero :
  forall (cs : list Call) (marian : list jsstring) (m2m100 : bool),
    Forall (fun e => ~ (confidence (result (snd e)) == 0)%Q)
      (translationCache (run env cs (fresh marian m2m100))).
Proof.
  intros cs marian m2m100.
  assert (Hgen : forall cs st,
             Forall (fun e => ~ (confidence (result (snd e)) == 0)%Q)
               (translationCache st) ->
             Forall (fun e => ~ (confidence (result (snd e)) == 0)%Q)
               (translationCache (run env cs st))).
  { clear. induction cs as [|c cs IH]; intros st H; [exact H|].
    change (run env (c :: cs) st) with (run env cs (perform env st c)).
    apply IH. destruct c as [text src tgt|]; simpl; [|constructor].
    rewrite Forall_forall in *.
    destruct (translateText_outcome text src tgt st)
      as [_ [_ [_ [[c [Gc [_ [_ [Hc _]]]]]
                  | [[out [score [d [nm [t [_ [Hd [Hconf [_ [_ [Hc _]]]]]]]]]]]
                    | [_ [_ [_ [_ [_ [Hc _]]]]]]]]]]].
    - rewrite Hc. intros e He. apply In_set in He.
      destruct He as [-> | He]; [|now apply H].
      simpl. apply get_In in Gc. exact (H _ Gc).
    - rewrite Hc. intros e He. apply In_put in He.
      destruct He as [-> | He]; [|now apply H].
      simpl. rewrite Hconf. apply scoreOr_nonzero.
      destruct Hd as [[_ [-> _]] | [_ [-> _]]]; discriminate.
    - rewrite Hc. exact H. }
  apply Hgen. constructor.
Qed.

(** X9.  Below the capacity, a call of [translateText] leaves every cached
    entry other than that of its own request exactly as it was. *)
Theorem other_entries_untouched :
  forall (text src tgt k : jsstring) (st : state),
    size (translationCache st) < MAX_CACHE_SIZE ->
    k <> cacheKeyOf text src tgt ->
    get k (translationCache (snd (translateText env text src tgt st)))
    = get k (translationCache st).
Proof.
  intros text src tgt k st Hsz Hk.
  destruct (translateText_outcome text src tgt st)
    as [_ [_ [_ [[c [_ [_ [_ [Hc _]]]]]
                | [[out [score [d [nm [t [_ [_ [_ [_ [_ [Hc _]]]]]]]]]]]
                  | [_ [_ [_ [_ [_ [Hc _]]]]]]]]]]]; rewrite Hc.
  - apply get_set_other. congruence.
  - unfold cacheTranslationWith.
    apply Nat.leb_gt in Hsz. rewrite Hsz.
    apply get_set_other. congruence.
  - reflexivity.
Qed.

(** X10.  [cleanup] empties the cache, unloads the models and leaves the
    helper uninitialised, but keeps every counter, the cache hits
    included; a request made of the helper in that state comes back
    untranslated with confidence 0.1, nothing is cached and no model is
    invoked. *)
Theorem cleanup_unloads :
  forall (st : state) (text src tgt : jsstring),
    let st' := cleanup st in
    let r := fst (translateText env text src tgt st') in
    translationCache st' = []
    /\ performanceStats st' = performanceStats st
    /\ isInitialized st' = false
    /\ marianTranslators st' = []
    /\ m2m100Translator st' = false
    /\ translatedText r = text
    /\ provider r = lit "cache"
    /\ confidence r = 1 # 10
    /\ translationCache (snd (translateText env text src tgt st')) = []
    /\ modelCalls (snd (translateText env text src tgt st')) = modelCalls st.
Proof.
  intros st text src tgt. cbv zeta.
  rewrite (no_model_fallback text src tgt (cleanup st))
    by reflexivity.
  unfold translationFailed, now. simpl. repeat split.
Qed.

End Outcomes.

Lemma In_get (V : Type) (m : Map V) k v :
  NoDup (keys m) -> In (k, v) m -> get k m = Some v.
Proof.
  induction m as [|[k' v'] m IH]; simpl; intros Hnd Hin; [contradiction|].
  inversion Hnd as [|? ? Hnin Hnd']; subst.
  destruct Hin as [Hin | Hin].
  - inversion Hin; subst. now rewrite str_eqb_refl.
  - case_key k k'.
    + exfalso. apply Hnin. apply (in_map fst) in Hin. exact Hin.
    + now apply IH.
Qed.

Lemma NoDup_entries (V : Type) (m : Map V) : NoDup (keys m) -> NoDup m.
Proof. apply NoDup_map_inv. Qed.

(** X11.  An entry that was accessed later than at least floor(C * 0.2)
    other entries survives the eviction batch: after the insertion of
    another key it is still found, unchanged. *)
Theorem recent_entries_survive :
  forall (C : nat) (key k : jsstring) (r : FastTranslationResult) (now : Z)
         (e : CachedTranslation) (m : Map CachedTranslation),
    NoDup (keys m) ->
    In (k, e) m ->
    toRemove C
    <= List.length
         (filter (fun x => (lastAccessed (snd x) <? lastAccessed e)%Z) m) ->
    k <> key ->
    get k (cacheTranslationWith C key r now m) = Some e.
Proof.
  intros C key k r now e m Hnd Hin Hold Hk.
  unfold cacheTranslationWith. rewrite get_set_other by congruence.
  destruct (C <=? size m); [|now apply In_get].
  apply In_get; [now apply EvictionFacts.evict_NoDup|].
  apply EvictionFacts.evict_In; [assumption|]. split; [assumption|].
  intros Hvic.
  set (older := filter (fun x => (lastAccessed (snd x) <? lastAccessed e)%Z) m)
    in *.
  assert (Hincl : incl ((k, e) :: older) (victims C m)).
  { intros x [<- | Hx]; [exact Hvic|].
    unfold older in Hx. apply filter_In in Hx. destruct Hx as [Hx Hlt].
    apply Z.ltb_lt in Hlt.
    apply EvictionFacts.sortedEntries_In in Hx. unfold sortedEntries in Hx.
    rewrite <- (firstn_skipn (toRemove C)) in Hx.
    apply in_app_or in Hx. destruct Hx as [Hx | Hx]; [exact Hx|].
    exfalso.
    pose proof (sort_sorted _ (fun y => lastAccessed (snd y)) m) as Hs.
    pose proof (EvictionFacts.sorted_split _ _ _ Hs (toRemove C) (k, e) x
                  Hvic Hx) as Hle.
    unfold keyLe in Hle. simpl in Hle. lia. }
  assert (Hnd' : NoDup ((k, e) :: older)).
  { constructor.
    - unfold older. intros Hx. apply filter_In in Hx.
      destruct Hx as [_ Hlt]. apply Z.ltb_lt in Hlt. simpl in Hlt. lia.
    - unfold older. apply NoDup_filter. now apply NoDup_entries. }
  pose proof (NoDup_incl_length Hnd' Hincl) as Hlen.
  simpl in Hlen.
  assert (List.length (victims C m) <= toRemove C)
    by (unfold victims; apply firstn_le_length).
  lia.
Qed.

Lemma trimStart_fixed s :
  (forall c rest, s = c :: rest -> space c = false) -> trimStart s = s.
Proof.
  destruct s as [|c s]; simpl; [reflexivity|].
  intros H. now rewrite (H c s eq_refl).
Qed.

Lemma trim_fixed s :
  (forall c rest, s = c :: rest -> space c = false) ->
  (forall front c, s = front ++ [c] -> space c = false) ->
  trim s = s.
Proof.
  intros Hhead Hlast. unfold trim. rewrite (trimStart_fixed s Hhead).
  rewrite trimStart_fixed; [apply rev_involutive|].
  intros c rest H. apply (Hlast (rev rest) c).
  rewrite <- (rev_involutive s), H. reflexivity.
Qed.

Lemma extracted_text_trimmed ocr :
  trim (fst (extractTextFromImage ocr)) = fst (extractTextFromImage ocr).
Proof.
  destruct ocr as [|text c]; simpl; [reflexivity|].
  destruct (CleaningFacts.cleanWith_spec keptByFast text) as [_ [Hh [Hl _]]].
  now apply trim_fixed.
Qed.

(** X12.  On an initialised helper the image pipeline answers [null]
    exactly when the recognised text is empty after cleaning (a failed
    recognition included), and then touches neither the cache nor the
    counters nor any model.  Otherwise it translates the cleaned text from
    the given source language, or from the detected one when none is
    given, counts the request once, and reports the verdict of the
    subtitle classifier on that text. *)
Theorem image_pipeline :
  forall (env : Environment) (init : InitRun) (ocr : OcrRun)
         (target source : option jsstring) (st : state),
    isInitialized st = true ->
    let text := fst (extractTextFromImage ocr) in
    let lang := or_default source (detectLanguage text) in
    let tgt := match target with Some l => l | None => lit "en" end in
    let translation :=
      translateText env text lang tgt (with_clock (S (clock st)) st) in
    exists res st',
      extractAndTranslateFromImage env init ocr target source st
      = (Resolved res, st')
      /\ match res with
         | None =>
             text = []
             /\ translationCache st' = translationCache st
             /\ performanceStats st' = performanceStats st
             /\ modelCalls st' = modelCalls st
         | Some r =>
             text <> []
             /\ isSubtitle r
                = SubtitleDetection.isSubtitle
                    (SubtitleDetection.detectSubtitlePattern text)
             /\ translatedText r = translatedText (fst translation)
             /\ provider r = provider (fst translation)
             /\ confidence r = confidence (fst translation)
             /\ translationCache st' = translationCache (snd translation)
             /\ (totalTranslations (performanceStats st')
                 + cacheHits (performanceStats st')
                 = totalTranslations (performanceStats st)
                   + cacheHits (performanceStats st) + 1)%Z
         end.
Proof.
  intros env init ocr target source st Hinit. cbv zeta.
  unfold extractAndTranslateFromImage. rewrite Hinit. simpl negb. cbv iota.
  unfold now at 1.
  pose proof (extracted_text_trimmed ocr) as Htrim.
  destruct (extractTextFromImage ocr) as [text c]. simpl fst in *.
  destruct text as [|a text].
  - eexists None, _. split; [reflexivity|]. repeat split.
  - rewrite Htrim.
    destruct (translateText env (a :: text)
                (or_default source (detectLanguage (a :: text)))
                match target with Some l => l | None => lit "en" end
                (with_clock (S (clock st)) st)) as [tr st1] eqn:E.
    unfold now. eexists (Some _), _. split; [reflexivity|].
    simpl. split; [discriminate|]. repeat (split; [reflexivity|]).
    pose proof (translateText_outcome env (a :: text)
                  (or_default source (detectLanguage (a :: text)))
                  match target with Some l => l | None => lit "en" end
                  (with_clock (S (clock st)) st)) as Hout.
    rewrite E in Hout. simpl in Hout.
    destruct Hout
      as [_ [_ [_ [[c0 [_ [_ [_ [_ [Ht [Hh _]]]]]]]
            | [[out [score [d [nm [t [_ [_ [_ [_ [_ [_ [Ht [Hh _]]]]]]]]]]]]]
              | [_ [_ [_ [_ [_ [_ [Ht [Hh _]]]]]]]]]]]]];
      rewrite Ht, Hh; lia.
Qed.

Lemma setKey_In (pair q : jsstring) (l : list jsstring) :
  In pair (setKey q l) <-> In pair l \/ pair = q.
Proof.
  unfold setKey. destruct (existsb (str_eqb q) l) eqn:E.
  - split; [auto|]. intros [H | ->]; [exact H|].
    apply existsb_exists in E. destruct E as [x [Hx Hq]].
    apply str_eqb_eq in Hq. subst x. exact Hx.
  - rewrite in_app_iff. simpl. split.
    + intros [H | [H | []]]; auto.
    + intros [H | H]; auto.
Qed.

Lemma preloadMarianModels_spec (init : InitRun) (pairs : list jsstring)
    (st : state) :
  let st' := preloadMarianModels init pairs st in
  translationCache st' = translationCache st
  /\ performanceStats st' = performanceStats st
  /\ m2m100Translator st' = m2m100Translator st
  /\ isInitialized st' = isInitialized st
  /\ clock st' = clock st
  /\ modelCalls st' = modelCalls st
  /\ (forall pair,
        In pair (marianTranslators st')
        <-> In pair (marianTranslators st)
            \/ (In pair pairs /\ hasModelName pair = true
                /\ marianLoads init pair = true)).
Proof.
  cbv zeta. revert st. induction pairs as [|q pairs IH]; intros st.
  - simpl. repeat (split; [reflexivity|]). intros pair. simpl. tauto.
  - unfold preloadMarianModels. simpl fold_left.
    fold (preloadMarianModels init pairs
            (if hasModelName q && marianLoads init q
             then with_marian (setKey q (marianTranslators st)) st
             else st)).
    destruct (IH (if hasModelName q && marianLoads init q
                  then with_marian (setKey q (marianTranslators st)) st
                  else st)) as [H1 [H2 [H3 [H4 [H5 [H6 H7]]]]]].
    rewrite H1, H2, H3, H4, H5, H6.
    destruct (hasModelName q && marianLoads init q) eqn:E.
    + repeat (split; [reflexivity|]). intros pair. rewrite H7.
      cbn [with_marian marianTranslators]. rewrite setKey_In.
      apply andb_true_iff in E. destruct E as [E1 E2]. simpl In.
      split.
      * intros [[H | ->] | [Hp Hr]]; auto.
      * intros [H | [[<- | Hp] Hr]]; auto.
    + repeat (split; [reflexivity|]). intros pair. rewrite H7. simpl In.
      split.
      * intros [H | [Hp Hr]]; auto.
      * intros [H | [[<- | Hp] [Hn Hl]]]; auto.
        rewrite Hn, Hl in E. discriminate.
Qed.

Lemma initialize_cases (env : Environment) (init : InitRun) (st : state) :
  isInitialized st = false ->
  (ocrStarts init && m2m100Loads init = false
   /\ initialize env init st = (false, with_clock (S (clock st)) st))
  \/ (ocrStarts init && m2m100Loads init = true
      /\ exists st',
           initialize env init st = (true, st')
           /\ isInitialized st' = true
           /\ m2m100Translator st' = true
           /\ translationCache st' = translationCache st
           /\ totalTranslations (performanceStats st')
              = totalTranslations (performanceStats st)
           /\ cacheHits (performanceStats st') = cacheHits (performanceStats st)
           /\ avgLatency (performanceStats st') = avgLatency (performanceStats st)
           /\ modelLoadTime (performanceStats st')
              = (Date_now env (S (clock st)) - Date_now env (clock st))%Z
           /\ modelCalls st' = modelCalls st
           /\ (forall pair,
                 In pair (marianTranslators st')
                 <-> In pair (marianTranslators st)
                     \/ (In pair preloaded /\ marianLoads init pair = true))).
Proof.
  intros Hinit. unfold initialize. rewrite Hinit. unfold now at 1.
  destruct (ocrStarts init); simpl negb; cbv iota.
  - unfold loadM2M100Model. destruct (m2m100Loads init).
    + right. split; [reflexivity|].
      destruct (preloadMarianModels_spec init preloaded
                  (with_m2m100 true (with_clock (S (clock st)) st)))
        as [H1 [H2 [H3 [H4 [H5 [H6 H7]]]]]].
      unfold now. eexists. split; [reflexivity|].
      cbn [isInitialized m2m100Translator translationCache performanceStats
           totalTranslations cacheHits avgLatency modelLoadTime modelCalls
           marianTranslators with_clock].
      rewrite H1, H2, H3, H5, H6.
      cbn [with_m2m100 with_clock translationCache performanceStats
           m2m100Translator clock modelCalls].
      repeat (split; [reflexivity|]).
      intros pair. rewrite H7.
      cbn [with_m2m100 with_clock marianTranslators].
      split.
      * intros [H | [Hp [_ Hl]]]; auto.
      * intros [H | [Hp Hl]]; auto. right. repeat split; auto.
        unfold preloaded in Hp. simpl in Hp.
        destruct Hp as [<- | [<- | [<- | []]]]; reflexivity.
    + left. split; reflexivity.
  - left. split; reflexivity.
Qed.

(** X25.  [initialize] on a helper that is not initialised succeeds
    exactly when the OCR worker starts and the general model loads; a
    pair model that fails to load is skipped.  Either way the cache, the
    counters of translations and hits and the record of model calls are
    as before.  When it throws, the helper stays uninitialised with the
    models it had, and the image pipeline is rejected; when it succeeds,
    the general model is loaded, the pair models are those loaded before
    and those of zh-en, ja-en and ko-en that loaded, the load time is the
    time between the two readings of the clock, a second [initialize]
    does nothing, and the image pipeline goes on as on the initialised
    helper. *)
Theorem initialize_loads :
  forall (env : Environment) (init : InitRun) (st : state),
    isInitialized st = false ->
    let ok := fst (initialize env init st) in
    let st' := snd (initialize env init st) in
    ok = ocrStarts init && m2m100Loads init
    /\ isInitialized st' = ok
    /\ translationCache st' = translationCache st
    /\ totalTranslations (performanceStats st')
       = totalTranslations (performanceStats st)
    /\ cacheHits (performanceStats st') = cacheHits (performanceStats st)
    /\ modelCalls st' = modelCalls st
    /\ (ok = false ->
        marianTranslators st' = marianTranslators st
        /\ m2m100Translator st' = m2m100Translator st
        /\ performanceStats st' = performanceStats st)
    /\ (ok = true ->
        m2m100Translator st' = true
        /\ modelLoadTime (performanceStats st')
           = (Date_now env (S (clock st)) - Date_now env (clock st))%Z
        /\ (forall pair,
              In pair (marianTranslators st')
              <-> In pair (marianTranslators st)
                  \/ (In pair preloaded /\ marianLoads init pair = true))
        /\ (forall init', initialize env init' st' = (true, st')))
    /\ (forall ocr target source,
          extractAndTranslateFromImage env init ocr target source st
          = if ok
            then extractAndTranslateFromImage env init ocr target source st'
            else (Rejected, st')).
Proof.
  intros env init st Hinit. cbv zeta.
  destruct (initialize_cases env init st Hinit)
    as [[Hb E] | [Hb [st' [E [Hi [Hm [Hc [Ht [Hh [_ [Hl [Hcalls Hp]]]]]]]]]]]].
  - rewrite E, Hb. simpl fst. simpl snd.
    repeat (split; [first [reflexivity | exact Hinit]|]).
    split; [intros _; repeat split|].
    split; [discriminate|].
    intros ocr target source. unfold extractAndTranslateFromImage.
    rewrite Hinit. simpl negb. cbv iota. rewrite E. reflexivity.
  - rewrite E, Hb. simpl fst. simpl snd.
    split; [reflexivity|]. split; [exact Hi|]. split; [exact Hc|].
    split; [exact Ht|]. split; [exact Hh|]. split; [exact Hcalls|].
    split; [discriminate|].
    split.
    + intros _. split; [exact Hm|]. split; [exact Hl|]. split; [exact Hp|].
      intros init'. unfold initialize. now rewrite Hi.
    + intros ocr target source. unfold extractAndTranslateFromImage.
      rewrite Hinit, Hi. simpl negb. cbv iota. rewrite E. reflexivity.
Qed.





End FastPipelineFacts.

(** ** More on the dispatcher *)

Module DispatcherExtraFacts.
Import JS JSFacts PutFacts TranslationHelper DispatcherFacts.

Section Dispatcher.
Variable env : Environment.

(** X13.  The cache is looked up by key alone, and the key does not tell
    requests apart: a hyphen may belong to the text or to the target
    language, an absent source language, the empty one and "auto" give the
    same key, and so do an absent target and "en".  A request with the key
    of a confident answer gets that answer, whatever its own text. *)
Theorem same_key_same_answer :
  forall (text text' : jsstring) (tgt tgt' src src' : option jsstring)
         (st st1 : state) (r1 : TranslationResult),
    translateText env text tgt src st = (r1, st1) ->
    (5 # 10 < confidence r1)%Q ->
    cacheKeyOf text' (targetOf tgt') src' = cacheKeyOf text (targetOf tgt) src ->
    translateText env text' tgt' src' st1 = (r1, st1)
    /\ (forall t a b s,
          cacheKeyOf (t ++ lit "-" ++ a) b s = cacheKeyOf t (a ++ lit "-" ++ b) s)
    /\ (forall t l,
          cacheKeyOf t l None = cacheKeyOf t l (Some (lit "auto"))
          /\ cacheKeyOf t l None = cacheKeyOf t l (Some []))
    /\ (forall t s,
          cacheKeyOf t (targetOf None) s = cacheKeyOf t (targetOf (Some (lit "en"))) s).
Proof.
  intros text text' tgt tgt' src src' st st1 r1 Ht Hconf Hkey.
  split; [|split; [|split]].
  - destruct (translateText_again env text tgt src st r1 st1 Ht Hconf)
      as [_ G].
    apply translateText_hit. now rewrite Hkey.
  - intros t a b s. unfold cacheKeyOf. now rewrite <- !app_assoc.
  - intros t l. split; reflexivity.
  - reflexivity.
Qed.

Lemma filter_none (A : Type) (f : A -> bool) (l : list A) :
  (forall a, In a l -> f a = false) -> filter f l = [].
Proof.
  induction l as [|a l IH]; simpl; intros H; [reflexivity|].
  rewrite (H a (or_introl eq_refl)). apply IH. intros b Hb. apply H. now right.
Qed.

Lemma offline_rejected p text tgt src st :
  name p = lit "offline" ->
  exists o st1,
    callProvider env p text tgt src st = (o, st1) /\ accepted o = None.
Proof.
  intros Hn. unfold callProvider. rewrite Hn.
  change (str_eqb (lit "offline") (lit "gemini")) with false.
  change (str_eqb (lit "offline") (lit "google")) with false.
  change (str_eqb (lit "offline") (lit "offline")) with true.
  cbv iota. unfold translateOffline, now. eexists _, _.
  split; [reflexivity|]. reflexivity.
Qed.

Lemma tryProviders_offline ps key text tgt src st :
  (forall p, In p ps -> enabled p = true -> name p = lit "offline") ->
  exists st',
    tryProviders env ps key text tgt src st = (None, st')
    /\ translationCache st' = translationCache st
    /\ attempted st' = attempted st ++ enabledNames ps.
Proof.
  revert st. induction ps as [|p ps IH]; intros st Hall; simpl.
  - exists st. unfold enabledNames. simpl. rewrite app_nil_r. auto.
  - assert (Hps : forall q, In q ps -> enabled q = true -> name q = lit "offline")
      by (intros q Hq; apply Hall; now right).
    unfold enabledNames. simpl. destruct (enabled p) eqn:En; simpl.
    + destruct (offline_rejected p text tgt src st
                  (Hall p (or_introl eq_refl) En)) as [o [st1 [Ec Ea]]].
      rewrite Ec, Ea.
      destruct (callProvider_frame env _ _ _ _ _ _ _ Ec) as [Hc [_ Hat]].
      destruct (IH st1 Hps) as [st' [E [Hc' Hat']]].
      exists st'. split; [exact E|]. split; [congruence|].
      rewrite Hat', Hat, <- app_assoc. reflexivity.
    + apply IH. exact Hps.
Qed.

(** X14.  With no provider enabled but the offline one, a request that is
    not cached always ends in the fallback result: the offline provider
    answers with confidence 0.3, which is never accepted.  Nothing is
    cached, and with every provider disabled no provider is tried. *)
Theorem offline_never_suffices :
  forall (text : jsstring) (tgt src : option jsstring) (st : state),
    get (cacheKeyOf text (targetOf tgt) src) (translationCache st) = None ->
    (forall p, In p (providers st) -> enabled p = true ->
               name p = lit "offline") ->
    let r := fst (translateText env text tgt src st) in
    let st1 := snd (translateText env text tgt src st) in
    (exists t, r = fallbackResult text src t)
    /\ translationCache st1 = translationCache st
    /\ attempted st1
       = attempted st ++ enabledNames (sort byPriority (providers st))
    /\ ((forall p, In p (providers st) -> enabled p = false) ->
        attempted st1 = attempted st).
Proof.
  intros text tgt src st Hmiss Hall. cbv zeta.
  assert (Hsorted : forall p, In p (sort byPriority (providers st)) ->
                              In p (providers st)).
  { intros p Hp. eapply Permutation_in; [|exact Hp].
    symmetry. exact (sort_perm _ priority (providers st)). }
  destruct (tryProviders_offline (sort byPriority (providers st))
              (cacheKeyOf text (targetOf tgt) src) text (targetOf tgt) src
              (with_providers (sort byPriority (providers st)) st))
    as [st' [E [Hc Hat]]].
  { intros p Hp. apply Hall. now apply Hsorted. }
  unfold translateText. rewrite Hmiss. simpl providers. rewrite E.
  unfold now. simpl.
  split; [eexists; reflexivity|]. split; [exact Hc|]. split; [exact Hat|].
  intros Hoff. rewrite Hat. simpl.
  assert (enabledNames (sort byPriority (providers st)) = []) as ->.
  { unfold enabledNames.
    assert (filter enabled (sort byPriority (providers st)) = []) as ->;
      [|reflexivity].
    apply filter_none. intros p Hp. exact (Hoff p (Hsorted p Hp)). }
  apply app_nil_r.
Qed.

Lemma translateText_providers text tgt src st :
  providers (snd (translateText env text tgt src st)) = providers st
  \/ providers (snd (translateText env text tgt src st))
     = sort byPriority (providers st).
Proof.
  destruct (get (cacheKeyOf text (targetOf tgt) src) (translationCache st))
    as [r|] eqn:G.
  - left. now rewrite (translateText_hit env _ _ _ _ _ G).
  - right. destruct (translateText_miss env text tgt src st G)
      as [r [st' [HD Ht]]].
    rewrite Ht. apply Dispatch_frame in HD. destruct HD as [Hp _].
    destruct r; simpl; exact Hp.
Qed.

Lemma registry_sorted ps :
  map priority ps = [1; 2; 3]%Z -> sort byPriority ps = ps.
Proof.
  intros H. apply sort_sorted_id.
  destruct ps as [|a [|b [|c [|d ps]]]]; try discriminate.
  simpl in H. inversion H as [[Ha Hb Hc]].
  repeat constructor; lia.
Qed.

Lemma registry_invariant cs st :
  map name (providers st) = [lit "gemini"; lit "google"; lit "offline"]
  /\ map priority (providers st) = [1; 2; 3]%Z ->
  map name (providers (run env cs st))
  = [lit "gemini"; lit "google"; lit "offline"]
  /\ map priority (providers (run env cs st)) = [1; 2; 3]%Z.
Proof.
  revert st. induction cs as [|c cs IH]; intros st H; [exact H|].
  change (run env (c :: cs) st) with (run env cs (perform env st c)).
  apply IH. destruct H as [Hn Hp].
  destruct c as [text tgt src | nm b |]; simpl.
  - destruct (translateText_providers text tgt src st) as [-> | ->];
      [auto|]. rewrite (registry_sorted _ Hp). auto.
  - destruct (enableFirst_names nm b (providers st)) as [-> [-> _]]. auto.
  - auto.
Qed.

(** X15.  Whatever calls are made on the dispatcher, its three providers
    stay registered under their names and priorities, in the order
    gemini, google, offline: translations sort the list, which is sorted
    already, and enabling or disabling changes a flag only. *)
Theorem registry_is_stable :
  forall cs : list Call,
    let ps := getProviderStatus (run env cs initial) in
    map name ps = [lit "gemini"; lit "google"; lit "offline"]
    /\ map priority ps = [1; 2; 3]%Z
    /\ StronglySorted (fun a b => (priority a <= priority b)%Z) ps.
Proof.
  intros cs. cbv zeta. unfold getProviderStatus.
  destruct (registry_invariant cs initial) as [Hn Hp]; [split; reflexivity|].
  split; [exact Hn|]. split; [exact Hp|].
  rewrite <- (registry_sorted _ Hp). apply byPriority_sorted.
Qed.

End Dispatcher.

Lemma enableFirst_twice nm b b' ps :
  enableFirst nm b (enableFirst nm b' ps) = enableFirst nm b ps.
Proof.
  induction ps as [|p ps IH]; simpl; [reflexivity|].
  destruct (str_eqb (name p) nm) eqn:E; simpl; rewrite E; [reflexivity|].
  now rewrite IH.
Qed.

Lemma enableFirst_commute nm nm' b b' ps :
  nm <> nm' ->
  enableFirst nm b (enableFirst nm' b' ps)
  = enableFirst nm' b' (enableFirst nm b ps).
Proof.
  intros Hne. induction ps as [|p ps IH]; simpl; [reflexivity|].
  destruct (str_eqb (name p) nm') eqn:E'; destruct (str_eqb (name p) nm) eqn:E;
    simpl; rewrite ?E, ?E'; try reflexivity.
  - apply str_eqb_eq in E, E'. congruence.
  - now rewrite IH.
Qed.

Lemma with_providers_twice ps ps' st :
  with_providers ps (with_providers ps' st) = with_providers ps st.
Proof. reflexivity. Qed.

(** X16.  Of two calls of [setProviderEnabled] for one name the later one
    decides, calls for different names can be made in either order, and
    setting a flag to the value it has changes nothing. *)
Theorem setProviderEnabled_composes :
  forall (nm nm' : jsstring) (b b' : bool) (st : state),
    setProviderEnabled nm b (setProviderEnabled nm b' st)
    = setProviderEnabled nm b st
    /\ (nm <> nm' ->
        setProviderEnabled nm b (setProviderEnabled nm' b' st)
        = setProviderEnabled nm' b' (setProviderEnabled nm b st))
    /\ ((forall p, In p (providers st) -> name p = nm -> enabled p = b) ->
        providers (setProviderEnabled nm b st) = providers st).
Proof.
  intros nm nm' b b' st. unfold setProviderEnabled. simpl.
  split; [|split].
  - now rewrite enableFirst_twice.
  - intros Hne. now rewrite (enableFirst_commute nm nm' b b' _ Hne).
  - intros Hsame. induction (providers st) as [|p ps IH]; simpl;
      [reflexivity|].
    case_key (name p) nm.
    + f_equal. destruct p as [n e pr]. unfold setEnabled. simpl.
      f_equal. symmetry. apply (Hsame _ (or_introl eq_refl)). reflexivity.
    + f_equal. apply IH. intros q Hq. apply Hsame. now right.
Qed.

Lemma disabled_by_name nm ps :
  NoDup (map name ps) ->
  forall p, In p (enableFirst nm false ps) -> name p = nm -> enabled p = false.
Proof.
  induction ps as [|q ps IH]; simpl; intros Hnd p Hp Hn; [contradiction|].
  inversion Hnd as [|? ? Hnin Hnd']; subst.
  case_key (name q) (name p).
  - destruct Hp as [<- | Hp]; [reflexivity|].
    exfalso. apply Hnin. rewrite E. now apply in_map.
  - destruct Hp as [<- | Hp]; [congruence|]. now apply IH.
Qed.

Section Attempts.
Variable env : Environment.

Lemma Dispatch_calls key text tgt src ps st r st' :
  Dispatch env key text tgt src ps st r st' ->
  exists calls,
    attempted st' = attempted st ++ calls /\ incl calls (enabledNames ps).
Proof.
  induction 1 as [st | p ps st r st' En _ IH | p ps st st1 r st' En Ecall _ IH
                 | p ps st o st1 r st' En Ecall Hlow _ IH
                 | p ps st res st1 En Ecall Hhigh];
    unfold enabledNames in *; simpl; rewrite ?En; simpl.
  - exists []. rewrite app_nil_r. split; [reflexivity | easy].
  - exact IH.
  - apply callProvider_frame in Ecall. destruct Ecall as [_ [_ Ea]].
    destruct IH as [calls [Hat Hin]].
    exists (name p :: calls). rewrite Hat, Ea, <- app_assoc. simpl.
    split; [reflexivity|].
    intros a [<- | Ha]; [now left | right; now apply Hin].
  - apply callProvider_frame in Ecall. destruct Ecall as [_ [_ Ea]].
    destruct IH as [calls [Hat Hin]].
    exists (name p :: calls). rewrite Hat, Ea, <- app_assoc. simpl.
    split; [reflexivity|].
    intros a [<- | Ha]; [now left | right; now apply Hin].
  - apply callProvider_frame in Ecall. destruct Ecall as [_ [_ Ea]].
    exists [name p]. split; [exact Ea|].
    intros a [<- | []]. now left.
Qed.

(** X17.  A provider that has been disabled is not tried: after
    [setProviderEnabled(name, false)], in any state the dispatcher can
    reach, the providers that a translation tries do not include it. *)
Theorem disabled_provider_not_tried :
  forall (cs : list Call) (nm text : jsstring) (tgt src : option jsstring),
    let st := setProviderEnabled nm false (run env cs initial) in
    exists calls,
      attempted (snd (translateText env text tgt src st))
      = attempted st ++ calls
      /\ ~ In nm calls.
Proof.
  intros cs nm text tgt src st.
  destruct (get (cacheKeyOf text (targetOf tgt) src) (translationCache st))
    as [r|] eqn:G.
  - rewrite (translateText_hit env _ _ _ _ _ G). exists [].
    rewrite app_nil_r. split; [reflexivity | easy].
  - destruct (translateText_miss env text tgt src st G) as [r [st' [HD Ht]]].
    destruct (Dispatch_calls _ _ _ _ _ _ _ _ HD) as [calls [Hat Hin]].
    exists calls. split.
    + rewrite Ht. destruct r; simpl; exact Hat.
    + intros Hnm. apply Hin in Hnm. unfold enabledNames in Hnm.
      apply in_map_iff in Hnm. destruct Hnm as [p [Hn Hp]].
      apply filter_In in Hp. destruct Hp as [Hp En].
      assert (Hp' : In p (providers st)).
      { eapply Permutation_in; [|exact Hp].
        symmetry. exact (sort_perm _ priority (providers st)). }
      subst st. simpl in Hp'.
      destruct (registry_invariant env cs initial) as [Hnames _];
        [split; reflexivity|].
      assert (Hnd : NoDup (map name (providers (run env cs initial)))).
      { rewrite Hnames. repeat constructor; simpl; intuition discriminate. }
      rewrite (disabled_by_name nm _ Hnd p Hp' Hn) in En. discriminate.
Qed.

End Attempts.

Lemma get_tail (V : Type) (m : Map V) k0 k :
  first_key m = Some k0 -> k <> k0 -> get k (tl m) = get k m.
Proof.
  destruct m as [|[k' v] m]; simpl; [discriminate|].
  intros H Hk. inversion H; subst. case_key k k0; [congruence | reflexivity].
Qed.

(** X18.  When the dispatcher cache has reached its capacity (1000 in the
    source, any capacity here), an insertion drops the entry that was
    inserted first, keeps every other entry as it is and makes the new
    key found. *)
Theorem dispatcher_evicts_first_inserted :
  forall (C : nat) (key k0 : jsstring) (r : TranslationResult)
         (m : Map TranslationResult),
    NoDup (keys m) ->
    C <= size m ->
    first_key m = Some k0 ->
    let m' := cacheTranslationWith C key r m in
    get key m' = Some r
    /\ (k0 <> key -> get k0 m' = None)
    /\ (forall k, k <> k0 -> k <> key -> get k m' = get k m).
Proof.
  intros C key k0 r m Hnd Hsz Hfirst m'. subst m'.
  rewrite (dispatcher_put_full C key r m Hsz).
  split; [apply get_set_same|]. split.
  - intros Hk. rewrite get_set_other by congruence.
    destruct m as [|[k' v] m]; simpl in *; [discriminate|].
    inversion Hfirst; subst. inversion Hnd; subst.
    now apply get_None.
  - intros k Hk0 Hk. rewrite get_set_other by congruence.
    now apply (get_tail _ m k0).
Qed.

End DispatcherExtraFacts.

(** ** More on the region monitor *)

Module RegionFacts.
Import JS JSFacts AreaSelectionHelper RegionExtras.

Lemma nth_error_replace_same (A : Type) (i : nat) (v : A) (l : list A) :
  i < List.length l -> nth_error (replace i v l) i = Some v.
Proof.
  revert i; induction l as [|a l IH]; intros [|i] H; simpl in *;
    try lia; [reflexivity|]. apply IH. lia.
Qed.

Lemma nth_error_replace_other (A : Type) (i j : nat) (v : A) (l : list A) :
  i <> j -> nth_error (replace i v l) j = nth_error l j.
Proof.
  revert i j; induction l as [|a l IH]; intros [|i] [|j] H; simpl;
    try reflexivity; try congruence. apply IH. congruence.
Qed.

Lemma replace_same (A : Type) (i : nat) (v : A) (l : list A) :
  nth_error l i = Some v -> replace i v l = l.
Proof.
  revert i; induction l as [|a l IH]; intros [|i] H; simpl in *;
    try discriminate.
  - now inversion H.
  - now rewrite IH.
Qed.

Lemma replace_twice (A : Type) (i : nat) (v w : A) (l : list A) :
  replace i v (replace i w l) = replace i v l.
Proof.
  revert i; induction l as [|a l IH]; intros [|i]; simpl; try reflexivity.
  now rewrite IH.
Qed.

Lemma getRegion_slot regionId st r :
  getRegion regionId st = Some r ->
  nth_error (selectedRegions st) regionId = Some {| inMap := true; region := r |}
  /\ regionId < List.length (selectedRegions st).
Proof.
  unfold getRegion. destruct (nth_error _ _) as [[b r']|] eqn:E;
    [|discriminate].
  simpl. destruct b; [|discriminate]. intros H. inversion H; subst.
  split; [reflexivity|]. apply nth_error_Some. congruence.
Qed.

Lemma getRegion_replace_same regionId slot st :
  regionId < List.length (selectedRegions st) ->
  getRegion regionId (with_regions (replace regionId slot (selectedRegions st)) st)
  = if inMap slot then Some (region slot) else None.
Proof.
  intros H. unfold getRegion. simpl.
  now rewrite nth_error_replace_same.
Qed.

Lemma getRegion_replace_other regionId j slot st :
  regionId <> j ->
  getRegion j (with_regions (replace regionId slot (selectedRegions st)) st)
  = getRegion j st.
Proof.
  intros H. unfold getRegion. simpl.
  now rewrite nth_error_replace_other.
Qed.

Lemma setActive_same r : setActive (isActive r) r = r.
Proof. now destruct r. Qed.

Lemma setActive_twice a b r : setActive a (setActive b r) = setActive a r.
Proof. reflexivity. Qed.

(** X19.  Toggling a region flips its flag and no other region; switching
    a region on sets the interval timer, switching it off leaves the
    timer as it is, and toggling twice gives the regions back as they
    were. *)
Theorem toggle_twice :
  forall (regionId : nat) (st : state) (r : SelectedRegion),
    getRegion regionId st = Some r ->
    let st1 := snd (toggleRegionMonitoring regionId st) in
    fst (toggleRegionMonitoring regionId st) = true
    /\ getRegion regionId st1 = Some (setActive (negb (isActive r)) r)
    /\ (forall j, j <> regionId -> getRegion j st1 = getRegion j st)
    /\ (isActive r = false -> monitoringInterval st1 = true)
    /\ (isActive r = true -> monitoringInterval st1 = monitoringInterval st)
    /\ running st1 = running st
    /\ selectedRegions (snd (toggleRegionMonitoring regionId st1))
       = selectedRegions st.
Proof.
  intros regionId st r G. cbv zeta.
  destruct (getRegion_slot regionId st r G) as [Hslot Hlt].
  assert (E : toggleRegionMonitoring regionId st
              = (true,
                 let st1 :=
                   with_regions
                     (replace regionId
                        {| inMap := true;
                           region := setActive (negb (isActive r)) r |}
                        (selectedRegions st)) st in
                 if negb (isActive r) && negb (monitoringInterval st)
                 then startMonitoring st1 else st1))
    by (unfold toggleRegionMonitoring; rewrite G; reflexivity).
  rewrite E. cbv zeta. simpl fst. simpl snd.
  set (st1 := with_regions _ st).
  assert (G1 : getRegion regionId st1
               = Some (setActive (negb (isActive r)) r))
    by (unfold st1; now rewrite getRegion_replace_same).
  assert (Hsel : forall b : bool,
             selectedRegions (if b then startMonitoring st1 else st1)
             = selectedRegions st1) by (intros []; reflexivity).
  assert (Hget : forall (b : bool) j,
             getRegion j (if b then startMonitoring st1 else st1)
             = getRegion j st1) by (intros [] j; reflexivity).
  split; [reflexivity|]. split; [now rewrite Hget|].
  split; [intros j Hj; rewrite Hget; unfold st1;
          apply getRegion_replace_other; congruence|].
  split; [intros Ha; rewrite Ha; simpl;
          destruct (monitoringInterval st) eqn:Em; simpl; auto|].
  split; [intros Ha; rewrite Ha; reflexivity|].
  split; [destruct (_ && _); reflexivity|].
  unfold toggleRegionMonitoring. rewrite Hget, G1. simpl snd.
  match goal with
  | |- selectedRegions (if ?b then _ else _) = _ => destruct b
  end; simpl; rewrite ?Hsel; unfold st1; simpl;
    rewrite replace_twice; apply replace_same; rewrite Hslot;
    destruct r; simpl; now rewrite negb_involutive.
Qed.

Lemma check_slots regionId h st j slot' :
  nth_error (selectedRegions (checkRegionForChanges regionId h st)) j
  = Some slot' ->
  exists slot,
    nth_error (selectedRegions st) j = Some slot
    /\ inMap slot' = inMap slot
    /\ isActive (region slot') = isActive (region slot).
Proof.
  unfold checkRegionForChanges.
  destruct h as [h|]; [|intros H; exists slot'; auto].
  destruct (nth_error (selectedRegions st) regionId) as [slot|] eqn:E;
    [|intros H; exists slot'; auto].
  destruct (match lastTextHash (region slot) with
            | Some (c :: old) => str_eqb (c :: old) h
            | _ => false
            end); [intros H; exists slot'; auto|].
  simpl. destruct (Nat.eq_dec regionId j) as [-> | Hne].
  - rewrite nth_error_replace_same
      by (apply nth_error_Some; congruence).
    intros H. inversion H; subst. exists slot. auto.
  - rewrite nth_error_replace_other by assumption.
    intros H. exists slot'. auto.
Qed.

Lemma check_frame regionId h st :
  monitoringInterval (checkRegionForChanges regionId h st)
  = monitoringInterval st
  /\ running (checkRegionForChanges regionId h st) = running st.
Proof.
  unfold checkRegionForChanges.
  destruct h as [h|]; [|auto].
  destruct (nth_error (selectedRegions st) regionId) as [slot|]; [|auto].
  destruct (match lastTextHash (region slot) with
            | Some (c :: old) => str_eqb (c :: old) h
            | _ => false
            end); auto.
Qed.

Lemma checkDone_slots k h st :
  selectedRegions (checkDone k h st) = selectedRegions st
  \/ exists regionId,
       selectedRegions (checkDone k h st)
       = selectedRegions (checkRegionForChanges regionId h st).
Proof.
  unfold checkDone. destruct (nth_error (running st) k) as [regionId|];
    [|now left].
  right. exists regionId. destruct (nextActiveFrom _ _); reflexivity.
Qed.

Lemma checkDone_interval k h st :
  monitoringInterval (checkDone k h st) = monitoringInterval st.
Proof.
  unfold checkDone. destruct (nth_error (running st) k) as [regionId|];
    [|reflexivity].
  destruct (nextActiveFrom _ _); simpl; apply check_frame.
Qed.

Lemma tick_frame st :
  selectedRegions (tick st) = selectedRegions st
  /\ monitoringInterval (tick st) = monitoringInterval st.
Proof.
  unfold tick. destruct (monitoringInterval st) eqn:E; [|auto].
  destruct (nextActiveFrom 0 st); simpl; auto.
Qed.

(** What a step leaves of a slot: a slot that is there afterwards was
    there before with the same flags, or it is the slot of the region
    that the step selected, toggled or deleted. *)
Lemma step_slots e st j slot' :
  nth_error (selectedRegions (step st e)) j = Some slot' ->
  (exists slot,
      nth_error (selectedRegions st) j = Some slot
      /\ (inMap slot' = true -> inMap slot = true)
      /\ (isActive (region slot') = true -> inMap slot' = true ->
          isActive (region slot) = true
          \/ monitoringInterval (step st e) = true))
  \/ (isActive (region slot') = false /\ inMap slot' = true
      /\ j = List.length (selectedRegions st)).
Proof.
  destruct e as [sx sy sw sh d | regionId | regionId | | | | | k h]; simpl.
  - unfold handleSelectionCompleted. simpl.
    destruct (Nat.lt_ge_cases j (List.length (selectedRegions st)))
      as [Hlt | Hge].
    + rewrite nth_error_app1 by assumption. intros H. left.
      exists slot'. auto.
    + rewrite nth_error_app2 by assumption.
      destruct (j - List.length (selectedRegions st)) as [|n] eqn:En;
        simpl; [|destruct n; discriminate].
      intros H. inversion H; subst. right. simpl.
      repeat split; auto. lia.
  - unfold toggleRegionMonitoring.
    destruct (getRegion regionId st) as [r|] eqn:G;
      [|intros H; left; exists slot'; auto].
    destruct (getRegion_slot regionId st r G) as [Hslot Hlt].
    simpl snd.
    match goal with
    | |- nth_error (selectedRegions (if ?b then _ else _)) _ = _ -> _ =>
        destruct b eqn:Eb
    end; simpl; intros H.
    + destruct (Nat.eq_dec regionId j) as [-> | Hne].
      * left. eexists. split; [exact Hslot|]. auto.
      * rewrite nth_error_replace_other in H by assumption.
        left. exists slot'. auto.
    + destruct (Nat.eq_dec regionId j) as [-> | Hne].
      * rewrite nth_error_replace_same in H by assumption.
        inversion H; subst. simpl in *. left. eexists.
        split; [exact Hslot|]. split; [auto|].
        intros Ha _. rewrite Ha in Eb. simpl in Eb.
        right. now destruct (monitoringInterval st).
      * rewrite nth_error_replace_other in H by assumption.
        left. exists slot'. auto.
  - unfold deleteRegion.
    destruct (getRegion regionId st) as [r|] eqn:G;
      [|intros H; left; exists slot'; auto].
    destruct (getRegion_slot regionId st r G) as [Hslot Hlt].
    simpl. intros H. destruct (Nat.eq_dec regionId j) as [-> | Hne].
    + rewrite nth_error_replace_same in H by assumption.
      inversion H; subst. simpl. left. eexists.
      split; [exact Hslot|]. split; [auto | discriminate].
    + rewrite nth_error_replace_other in H by assumption.
      left. exists slot'. auto.
  - intros H. left. exists slot'. auto.
  - intros H. left. exists slot'. auto.
  - unfold cleanup. simpl. rewrite nth_error_map.
    destruct (nth_error (selectedRegions st) j) as [slot|]; simpl;
      [|discriminate].
    intros H. inversion H; subst. simpl. left. exists slot.
    split; [reflexivity|]. split; discriminate.
  - destruct (tick_frame st) as [-> _]. intros H. left. exists slot'. auto.
  - destruct (checkDone_slots k h st) as [-> | [regionId ->]]; intros H.
    + left. exists slot'. auto.
    + apply check_slots in H. destruct H as [slot [Hs [Hm Ha]]].
      left. exists slot. split; [exact Hs|].
      split; [congruence|]. intros Hact _. left. congruence.
Qed.

Lemma step_interval e st :
  clearsInterval e = false ->
  monitoringInterval st = true -> monitoringInterval (step st e) = true.
Proof.
  destruct e as [sx sy sw sh d | regionId | regionId | | | | | k h]; simpl;
    try discriminate; intros _ H; auto.
  - unfold toggleRegionMonitoring.
    destruct (getRegion regionId st); [|exact H]. simpl.
    destruct (_ && _); simpl; auto.
  - unfold deleteRegion. destruct (getRegion regionId st); exact H.
  - destruct (tick_frame st) as [_ ->]. exact H.
  - now rewrite checkDone_interval.
Qed.

(** X20.  Unless [stopMonitoring] or [cleanup] is called, the interval
    timer, once set, stays set (switching off or deleting the last active
    region does not clear it), and whenever some region is active the
    timer is set. *)
Theorem active_regions_are_monitored :
  forall es : list Event,
    Forall (fun e => clearsInterval e = false) es ->
    (forall st, monitoringInterval st = true ->
                monitoringInterval (run es st) = true)
    /\ (forall regionId r,
          getRegion regionId (run es initial) = Some r ->
          isActive r = true ->
          monitoringInterval (run es initial) = true).
Proof.
  intros es Hq. split.
  - induction Hq as [|e es He _ IH]; intros st H; [exact H|].
    change (run (e :: es) st) with (run es (step st e)).
    apply IH. now apply step_interval.
  - assert (Hgen : forall st,
               (forall j slot, nth_error (selectedRegions st) j = Some slot ->
                               inMap slot = true ->
                               isActive (region slot) = true ->
                               monitoringInterval st = true) ->
               forall j slot,
                 nth_error (selectedRegions (run es st)) j = Some slot ->
                 inMap slot = true ->
                 isActive (region slot) = true ->
                 monitoringInterval (run es st) = true).
    { induction Hq as [|e es He _ IH]; intros st Hinv; [exact Hinv|].
      change (run (e :: es) st) with (run es (step st e)).
      apply IH. intros j slot' Hs Hm Ha.
      destruct (step_slots e st j slot' Hs)
        as [[slot [Hs0 [Hm0 Ha0]]] | [Hina _]]; [|congruence].
      destruct (Ha0 Ha Hm) as [Hact | Hint]; [|exact Hint].
      apply step_interval; [exact He|].
      exact (Hinv j slot Hs0 (Hm0 Hm) Hact). }
    intros regionId r G Ha.
    destruct (getRegion_slot _ _ _ G) as [Hslot _].
    apply (Hgen initial) with (j := regionId)
                              (slot := {| inMap := true; region := r |});
      auto.
    intros j slot Hs. destruct j; discriminate.
Qed.

Lemma check_length regionId h st :
  List.length (selectedRegions (checkRegionForChanges regionId h st))
  = List.length (selectedRegions st).
Proof.
  unfold checkRegionForChanges.
  destruct h as [h|]; [|reflexivity].
  destruct (nth_error (selectedRegions st) regionId) as [slot|];
    [|reflexivity].
  destruct (match lastTextHash (region slot) with
            | Some (c :: old) => str_eqb (c :: old) h
            | _ => false
            end); [reflexivity|].
  simpl. apply MonitorFacts.replace_length.
Qed.

Lemma step_length e st :
  List.length (selectedRegions st)
  <= List.length (selectedRegions (step st e)).
Proof.
  destruct e as [sx sy sw sh d | regionId | regionId | | | | | k h]; simpl;
    try lia.
  - rewrite length_app. simpl. lia.
  - unfold toggleRegionMonitoring.
    destruct (getRegion regionId st); [|simpl; lia]. simpl.
    destruct (_ && _); simpl; rewrite MonitorFacts.replace_length; lia.
  - unfold deleteRegion. destruct (getRegion regionId st); simpl; [|lia].
    rewrite MonitorFacts.replace_length. lia.
  - rewrite length_map. lia.
  - destruct (tick_frame st) as [-> _]. lia.
  - destruct (checkDone_slots k h st) as [-> | [regionId ->]]; [lia|].
    rewrite check_length. lia.
Qed.

Lemma gone_for_good es st regionId :
  regionId < List.length (selectedRegions st) ->
  getRegion regionId st = None ->
  getRegion regionId (run es st) = None.
Proof.
  revert st. induction es as [|e es IH]; intros st Hlt G; [exact G|].
  change (run (e :: es) st) with (run es (step st e)).
  apply IH.
  - eapply Nat.lt_le_trans; [exact Hlt | apply step_length].
  - unfold getRegion.
    destruct (nth_error (selectedRegions (step st e)) regionId)
      as [slot'|] eqn:E; [|reflexivity].
    destruct (inMap slot') eqn:Em; [|reflexivity]. exfalso.
    destruct (step_slots e st regionId slot' E)
      as [[slot [Hs [Hm _]]] | [_ [_ Hnew]]]; [|lia].
    unfold getRegion in G. rewrite Hs, (Hm Em) in G. discriminate.
Qed.

(** X21.  Deleting a region removes it and no other region, and cancels
    neither the timer nor a check in flight; from then on the identifier
    names no region, whatever happens: deleting or toggling it again
    answers [false] and changes nothing. *)
Theorem deleted_region_is_gone :
  forall (regionId : nat) (st : state) (r : SelectedRegion),
    getRegion regionId st = Some r ->
    let st1 := snd (deleteRegion regionId st) in
    fst (deleteRegion regionId st) = true
    /\ (forall j, j <> regionId -> getRegion j st1 = getRegion j st)
    /\ running st1 = running st
    /\ monitoringInterval st1 = monitoringInterval st
    /\ (forall es,
          getRegion regionId (run es st1) = None
          /\ deleteRegion regionId (run es st1) = (false, run es st1)
          /\ toggleRegionMonitoring regionId (run es st1)
             = (false, run es st1)).
Proof.
  intros regionId st r G. cbv zeta.
  destruct (getRegion_slot regionId st r G) as [Hslot Hlt].
  assert (E : deleteRegion regionId st
              = (true,
                 with_regions
                   (replace regionId
                      {| inMap := false; region := setActive false r |}
                      (selectedRegions st)) st))
    by (unfold deleteRegion; rewrite G; reflexivity).
  rewrite E. simpl fst. simpl snd. set (st1 := with_regions _ st).
  split; [reflexivity|].
  split; [intros j Hj; apply getRegion_replace_other; congruence|].
  split; [reflexivity|]. split; [reflexivity|].
  intros es.
  assert (Hgone : getRegion regionId (run es st1) = None).
  { apply gone_for_good.
    - unfold st1. simpl. now rewrite MonitorFacts.replace_length.
    - unfold st1. now rewrite getRegion_replace_same. }
  split; [exact Hgone|].
  unfold deleteRegion, toggleRegionMonitoring. rewrite Hgone. auto.
Qed.



Lemma hexDigits_nonempty fuel n acc : acc <> [] -> hexDigits fuel n acc <> [].
Proof.
  revert n acc. induction fuel as [|fuel IH]; intros n acc H; simpl;
    [exact H|].
  destruct (n / 16 =? 0)%N; [discriminate|]. apply IH. discriminate.
Qed.

Lemma toString16_nonempty z : toString16 z <> [].
Proof.
  unfold toString16. destruct (z <? 0)%Z; [discriminate|].
  simpl. destruct (_ / 16 =? 0)%N; [discriminate|].
  apply hexDigits_nonempty. discriminate.
Qed.

Lemma generateImageHash_nonempty means :
  means <> [] -> generateImageHash means <> [].
Proof.
  destruct means as [|m means]; [congruence|]. intros _.
  unfold generateImageHash. simpl.
  pose proof (toString16_nonempty (roundMean m)) as H.
  destruct (toString16 (roundMean m)); [congruence | discriminate].
Qed.

Lemma check_unchanged regionId (h : jsstring) st slot :
  nth_error (selectedRegions st) regionId = Some slot ->
  match lastTextHash (region slot) with
  | Some (c :: old) => str_eqb (c :: old) h
  | _ => false
  end = true ->
  checkRegionForChanges regionId (Some h) st = st.
Proof.
  intros E Eu. unfold checkRegionForChanges. rewrite E. cbv zeta.
  now rewrite Eu.
Qed.

Lemma check_changed regionId (h : jsstring) st slot :
  nth_error (selectedRegions st) regionId = Some slot ->
  match lastTextHash (region slot) with
  | Some (c :: old) => str_eqb (c :: old) h
  | _ => false
  end = false ->
  checkRegionForChanges regionId (Some h) st
  = with_changed (changed st ++ [regionId])
      (with_regions
         (replace regionId
            {| inMap := inMap slot; region := setHash h (region slot) |}
            (selectedRegions st)) st).
Proof.
  intros E Eu. unfold checkRegionForChanges. rewrite E. cbv zeta.
  now rewrite Eu.
Qed.

Lemma check_again regionId (h : jsstring) st :
  h <> [] ->
  checkRegionForChanges regionId (Some h)
    (checkRegionForChanges regionId (Some h) st)
  = checkRegionForChanges regionId (Some h) st.
Proof.
  intros Hh.
  destruct (nth_error (selectedRegions st) regionId) as [slot|] eqn:E.
  - destruct (match lastTextHash (region slot) with
              | Some (c :: old) => str_eqb (c :: old) h
              | _ => false
              end) eqn:Eu.
    + pose proof (check_unchanged regionId h st slot E Eu) as HH.
      rewrite HH. exact HH.
    + rewrite (check_changed regionId h st slot E Eu).
      eapply check_unchanged.
      * simpl. apply nth_error_replace_same.
        apply nth_error_Some. congruence.
      * simpl. destruct h as [|c h]; [congruence|].
        apply (str_eqb_refl (c :: h)).
  - assert (HH : checkRegionForChanges regionId (Some h) st = st)
      by (unfold checkRegionForChanges; now rewrite E).
    rewrite HH. exact HH.
Qed.


(** X23.  An image always hashes to a string that is not empty, so a
    second check of a region whose image has not changed changes nothing
    and notifies nobody; a capture that fails changes nothing either, and
    a check notifies at most once. *)
Theorem unchanged_image_is_ignored :
  forall (regionId : nat) (means : list Q) (st : state),
    means <> [] ->
    let h := generateImageHash means in
    let st1 := checkRegionForChanges regionId (Some h) st in
    h <> []
    /\ checkRegionForChanges regionId (Some h) st1 = st1
    /\ checkRegionForChanges regionId None st = st
    /\ List.length (changed st1) <= S (List.length (changed st))
    /\ monitoringInterval st1 = monitoringInterval st
    /\ running st1 = running st.
Proof.
  intros regionId means st Hm h st1.
  pose proof (generateImageHash_nonempty means Hm) as Hh. fold h in Hh.
  split; [exact Hh|]. split; [now apply check_again|].
  split; [reflexivity|].
  destruct (check_frame regionId (Some h) st) as [Hi Hr].
  split; [|auto]. subst st1. unfold checkRegionForChanges.
  destruct (nth_error (selectedRegions st) regionId) as [slot|]; [|lia].
  destruct (match lastTextHash (region slot) with
            | Some (c :: old) => str_eqb (c :: old) h
            | _ => false
            end); simpl; [lia|].
  rewrite length_app. simpl. lia.
Qed.

Lemma roundMean_integer z : roundMean (inject_Z z) = z.
Proof.
  unfold roundMean, inject_Z, Qplus, Qfloor. simpl.
  replace (z * 2 + 1)%Z with (1 + z * 2)%Z by lia.
  rewrite Z.div_add by lia. reflexivity.
Qed.

Lemma hex_ambiguity_checked :
  forallb (fun a =>
    forallb (fun b =>
      forallb (fun c =>
        str_eqb
          (toString16 (Z.of_nat a) ++ toString16 (Z.of_nat (16 * b + c)))
          (toString16 (Z.of_nat (16 * a + b)) ++ toString16 (Z.of_nat c)))
        (List.seq 0 16))
      (List.seq 1 15))
    (List.seq 1 15) = true.
Proof. vm_compute. reflexivity. Qed.

Lemma hex_ambiguity (a b c : Z) :
  (1 <= a <= 15)%Z -> (1 <= b <= 15)%Z -> (0 <= c <= 15)%Z ->
  toString16 a ++ toString16 (16 * b + c)
  = toString16 (16 * a + b) ++ toString16 c.
Proof.
  intros Ha Hb Hc.
  pose proof hex_ambiguity_checked as H.
  rewrite forallb_forall in H.
  assert (Ia : In (Z.to_nat a) (List.seq 1 15)) by (apply in_seq; lia).
  assert (Ib : In (Z.to_nat b) (List.seq 1 15)) by (apply in_seq; lia).
  assert (Ic : In (Z.to_nat c) (List.seq 0 16)) by (apply in_seq; lia).
  specialize (H _ Ia). rewrite forallb_forall in H.
  specialize (H _ Ib). rewrite forallb_forall in H.
  specialize (H _ Ic). apply str_eqb_eq in H.
  replace (Z.of_nat (Z.to_nat a)) with a in H by lia.
  replace (Z.of_nat (16 * Z.to_nat b + Z.to_nat c)) with (16 * b + c)%Z in H
    by lia.
  replace (Z.of_nat (16 * Z.to_nat a + Z.to_nat b)) with (16 * a + b)%Z in H
    by lia.
  replace (Z.of_nat (Z.to_nat c)) with c in H by lia.
  exact H.
Qed.

(** X24.  The hash joins the hexadecimal means of the channels without
    padding, so that images with different means can share a hash: means
    (a, 16b + c) and (16a + b, c) hash alike for digits a, b from 1 to 15
    and c from 0 to 15.  A region that goes from one such image to the
    other is reported as unchanged. *)
Theorem hash_collides :
  forall (a b c : Z) (rest : list Q) (regionId : nat) (st : state),
    (1 <= a <= 15)%Z -> (1 <= b <= 15)%Z -> (0 <= c <= 15)%Z ->
    let first := inject_Z a :: inject_Z (16 * b + c) :: rest in
    let second := inject_Z (16 * a + b) :: inject_Z c :: rest in
    ~ (inject_Z a == inject_Z (16 * a + b))%Q
    /\ generateImageHash first = generateImageHash second
    /\ checkRegionForChanges regionId (Some (generateImageHash second))
         (checkRegionForChanges regionId (Some (generateImageHash first)) st)
       = checkRegionForChanges regionId (Some (generateImageHash first)) st.
Proof.
  intros a b c rest regionId st Ha Hb Hc first second.
  assert (Hhash : generateImageHash first = generateImageHash second).
  { unfold first, second, generateImageHash. cbn [map concat].
    rewrite !roundMean_integer, !app_assoc.
    now rewrite (hex_ambiguity a b c Ha Hb Hc). }
  split; [|split; [exact Hhash|]].
  - intros H. unfold Qeq in H. cbn [inject_Z Qnum Qden] in H. lia.
  - rewrite <- Hhash. apply check_again.
    apply generateImageHash_nonempty. discriminate.
Qed.

End RegionFacts.

(** ** More concrete runs *)

Module MoreInstances.
Import JS JSFacts Scenarios MoreScenarios.
Module F := FastTranslationHelper.
Module P := FastPipeline.
Module D := TranslationHelper.
Module A := AreaSelectionHelper.
Module R := RegionExtras.

Lemma cacheKey_injective_witness :
  P.barFree (lit "zh") /\ P.barFree (lit "en")
  /\ (greeting = greeting /\ lit "zh" = lit "zh" /\ lit "en" = lit "en").
Proof.
  assert (H1 : P.barFree (lit "zh"))
    by (unfold P.barFree; simpl; intros [H | [H | []]]; discriminate).
  assert (H2 : P.barFree (lit "en"))
    by (unfold P.barFree; simpl; intros [H | [H | []]]; discriminate).
  split; [exact H1|]. split; [exact H2|].
  exact (FastPipelineFacts.cacheKey_injective greeting (lit "zh") (lit "en")
           greeting (lit "zh") (lit "en") H1 H2 H1 H2 eq_refl).
Defined.

Lemma translation_unavailable_witness :
  get (F.cacheKeyOf greeting (lit "zh") (lit "en")) (F.translationCache unloaded)
  = None
  /\ F.provider
       (fst (F.translateText marianAnswers greeting (lit "zh") (lit "en")
               unloaded)) = lit "cache".
Proof.
  split; [reflexivity|].
  destruct (FastPipelineFacts.translation_unavailable marianAnswers greeting
              (lit "zh") (lit "en") unloaded eq_refl eq_refl eq_refl)
    as [_ [_ [Hp _]]].
  exact Hp.
Defined.

Lemma pair_model_failure_witness :
  F.marianRun marianThrows (List.length (F.modelCalls loaded))
    (lit "zh" ++ lit "-" ++ lit "en") greeting = F.ModelThrew
  /\ F.modelCalls
       (snd (F.translateText marianThrows greeting (lit "zh") (lit "en")
               loaded))
     = F.modelCalls loaded ++ [lit "zh" ++ lit "-" ++ lit "en"].
Proof.
  split; [reflexivity|].
  destruct (FastPipelineFacts.pair_model_failure_is_final marianThrows
              greeting (lit "zh") (lit "en") loaded eq_refl eq_refl eq_refl)
    as [_ [_ [_ [_ Hm]]]].
  exact Hm.
Defined.

Lemma hit_rate_witness :
  (5 # 10 < F.confidence
     (fst (F.translateText marianAnswers greeting (lit "zh") (lit "en")
             (F.fresh [lit "zh-en"] true))))%Q
  /\ F.cacheHits
       (F.performanceStats
          (F.run marianAnswers (P.repeated 3 greeting (lit "zh") (lit "en"))
             (snd (F.translateText marianAnswers greeting (lit "zh")
                     (lit "en") (F.fresh [lit "zh-en"] true))))) = 3%Z.
Proof.
  assert (H : (5 # 10 < F.confidence
                 (fst (F.translateText marianAnswers greeting (lit "zh")
                         (lit "en") (F.fresh [lit "zh-en"] true))))%Q)
    by (vm_compute; reflexivity).
  split; [exact H|].
  destruct (FastPipelineFacts.hit_rate_counts_hits_per_miss marianAnswers
              greeting (lit "zh") (lit "en") [lit "zh-en"] true 3 H)
    as [_ [Hh _]].
  exact Hh.
Defined.

Lemma other_entries_witness :
  size (F.translationCache loaded) < F.MAX_CACHE_SIZE
  /\ keyOf 1 <> F.cacheKeyOf greeting (lit "zh") (lit "en")
  /\ get (keyOf 1)
       (F.translationCache
          (snd (F.translateText marianAnswers greeting (lit "zh") (lit "en")
                  loaded)))
     = get (keyOf 1) (F.translationCache loaded).
Proof.
  assert (H1 : size (F.translationCache loaded) < F.MAX_CACHE_SIZE)
    by (apply Nat.ltb_lt; reflexivity).
  assert (H2 : keyOf 1 <> F.cacheKeyOf greeting (lit "zh") (lit "en"))
    by (intros H; discriminate H).
  split; [exact H1|]. split; [exact H2|].
  exact (FastPipelineFacts.other_entries_untouched marianAnswers greeting
           (lit "zh") (lit "en") (keyOf 1) loaded H1 H2).
Defined.

Lemma recent_entries_witness :
  NoDup (keys tenEntries)
  /\ In (keyOf 9, newestEntry) tenEntries
  /\ get (keyOf 9)
       (F.cacheTranslationWith 10 (keyOf 10) (fastResult (keyOf 10) (8 # 10))
          10 tenEntries) = Some newestEntry.
Proof.
  assert (H1 : NoDup (keys tenEntries)).
  { vm_compute.
    repeat (constructor; [simpl; intuition discriminate|]). constructor. }
  assert (H2 : In (keyOf 9, newestEntry) tenEntries)
    by (apply get_In; reflexivity).
  assert (H3 : F.toRemove 10
               <= List.length
                    (filter
                       (fun x =>
                          (F.lastAccessed (snd x)
                           <? F.lastAccessed newestEntry)%Z) tenEntries))
    by (apply Nat.leb_le; reflexivity).
  assert (H4 : keyOf 9 <> keyOf 10) by (intros H; discriminate H).
  split; [exact H1|]. split; [exact H2|].
  exact (FastPipelineFacts.recent_entries_survive 10 (keyOf 10) (keyOf 9)
           (fastResult (keyOf 10) (8 # 10)) 10%Z newestEntry tenEntries
           H1 H2 H3 H4).
Defined.

Lemma image_pipeline_witness :
  F.isInitialized loaded = true
  /\ exists res st',
       P.extractAndTranslateFromImage marianAnswers allLoad recognised None
         (Some (lit "zh")) loaded = (P.Resolved res, st').
Proof.
  split; [reflexivity|].
  destruct (FastPipelineFacts.image_pipeline marianAnswers allLoad recognised
              None (Some (lit "zh")) loaded eq_refl) as [res [st' [H _]]].
  exists res, st'. exact H.
Defined.

Lemma same_key_witness :
  let first :=
    D.translateText geminiAnswers (lit "a-b") (Some (lit "c")) None D.initial in
  (5 # 10 < D.confidence (fst first))%Q
  /\ D.cacheKeyOf (lit "a") (D.targetOf (Some (lit "b-c"))) None
     = D.cacheKeyOf (lit "a-b") (D.targetOf (Some (lit "c"))) None
  /\ D.translateText geminiAnswers (lit "a") (Some (lit "b-c")) None (snd first)
     = (fst first, snd first).
Proof.
  intros first.
  assert (H1 : (5 # 10 < D.confidence (fst first))%Q)
    by (vm_compute; reflexivity).
  assert (H2 : D.cacheKeyOf (lit "a") (D.targetOf (Some (lit "b-c"))) None
               = D.cacheKeyOf (lit "a-b") (D.targetOf (Some (lit "c"))) None)
    by reflexivity.
  split; [exact H1|]. split; [exact H2|].
  destruct (DispatcherExtraFacts.same_key_same_answer geminiAnswers
              (lit "a-b") (lit "a") (Some (lit "c")) (Some (lit "b-c"))
              None None D.initial (snd first) (fst first)
              (surjective_pairing first) H1 H2) as [H _].
  exact H.
Defined.

Lemma offline_witness :
  get (D.cacheKeyOf greeting (D.targetOf None) None)
    (D.translationCache offlineOnly) = None
  /\ (forall p, In p (D.providers offlineOnly) -> D.enabled p = true ->
                D.name p = lit "offline")
  /\ D.translationCache
       (snd (D.translateText nobodyAnswers greeting None None offlineOnly))
     = D.translationCache offlineOnly.
Proof.
  assert (H1 : get (D.cacheKeyOf greeting (D.targetOf None) None)
                 (D.translationCache offlineOnly) = None) by reflexivity.
  assert (H2 : forall p, In p (D.providers offlineOnly) ->
                         D.enabled p = true -> D.name p = lit "offline").
  { intros p Hp. simpl in Hp.
    destruct Hp as [<- | [<- | [<- | []]]]; simpl; intros H;
      try discriminate; reflexivity. }
  split; [exact H1|]. split; [exact H2|].
  destruct (DispatcherExtraFacts.offline_never_suffices nobodyAnswers
              greeting None None offlineOnly H1 H2) as [_ [Hc _]].
  exact Hc.
Defined.

Lemma first_inserted_witness :
  NoDup (keys twoEntries)
  /\ 2 <= size twoEntries
  /\ first_key twoEntries = Some (keyOf 0)
  /\ get (keyOf 0)
       (D.cacheTranslationWith 2 (keyOf 2)
          (dispatcherResult (keyOf 2) (8 # 10) (lit "gemini")) twoEntries)
     = None.
Proof.
  assert (H1 : NoDup (keys twoEntries)).
  { vm_compute.
    repeat (constructor; [simpl; intuition discriminate|]). constructor. }
  assert (H2 : 2 <= size twoEntries) by (apply Nat.leb_le; reflexivity).
  assert (H3 : first_key twoEntries = Some (keyOf 0)) by reflexivity.
  split; [exact H1|]. split; [exact H2|]. split; [exact H3|].
  destruct (DispatcherExtraFacts.dispatcher_evicts_first_inserted 2 (keyOf 2)
              (keyOf 0) (dispatcherResult (keyOf 2) (8 # 10) (lit "gemini"))
              twoEntries H1 H2 H3) as [_ [Hgone _]].
  apply Hgone. intros H; discriminate H.
Defined.

Lemma toggle_twice_witness :
  exists r,
    A.getRegion 0 watching = Some r
    /\ A.selectedRegions
         (snd (A.toggleRegionMonitoring 0
                 (snd (A.toggleRegionMonitoring 0 watching))))
       = A.selectedRegions watching.
Proof.
  eexists. split; [reflexivity|].
  destruct (RegionFacts.toggle_twice 0 watching _ eq_refl)
    as [_ [_ [_ [_ [_ [_ H]]]]]].
  exact H.
Defined.

Lemma monitored_witness :
  Forall (fun e => R.clearsInterval e = false) undisturbed
  /\ (forall regionId r,
        A.getRegion regionId (A.run undisturbed A.initial) = Some r ->
        A.isActive r = true ->
        A.monitoringInterval (A.run undisturbed A.initial) = true).
Proof.
  assert (H : Forall (fun e => R.clearsInterval e = false) undisturbed)
    by (repeat constructor).
  split; [exact H|].
  exact (proj2 (RegionFacts.active_regions_are_monitored undisturbed H)).
Defined.

Lemma deleted_region_witness :
  exists r,
    A.getRegion 0 watching = Some r
    /\ A.getRegion 0 (snd (A.deleteRegion 0 watching)) = None.
Proof.
  eexists. split; [reflexivity|].
  destruct (RegionFacts.deleted_region_is_gone 0 watching _ eq_refl)
    as [_ [_ [_ [_ H]]]].
  exact (proj1 (H [])).
Defined.

Lemma unchanged_image_witness :
  grey <> []
  /\ A.checkRegionForChanges 0 (Some (R.generateImageHash grey))
       (A.checkRegionForChanges 0 (Some (R.generateImageHash grey)) watching)
     = A.checkRegionForChanges 0 (Some (R.generateImageHash grey)) watching.
Proof.
  assert (H : grey <> []) by discriminate.
  split; [exact H|].
  destruct (RegionFacts.unchanged_image_is_ignored 0 grey watching H)
    as [_ [H2 _]].
  exact H2.
Defined.

Lemma hash_collides_witness :
  (1 <= 1 <= 15)%Z /\ (1 <= 2 <= 15)%Z /\ (0 <= 3 <= 15)%Z
  /\ R.generateImageHash [inject_Z 1; inject_Z (16 * 2 + 3)]
     = R.generateImageHash [inject_Z (16 * 1 + 2); inject_Z 3].
Proof.
  assert (H1 : (1 <= 1 <= 15)%Z) by lia.
  assert (H2 : (1 <= 2 <= 15)%Z) by lia.
  assert (H3 : (0 <= 3 <= 15)%Z) by lia.
  split; [exact H1|]. split; [exact H2|]. split; [exact H3|].
  destruct (RegionFacts.hash_collides 1 2 3 [] 0 watching H1 H2 H3)
    as [_ [H _]].
  exact H.
Defined.

(** The helper cleaned up and initialised again, every model loading. *)
Lemma initialize_loads_witness :
  F.isInitialized (P.cleanup loaded) = false
  /\ fst (P.initialize marianAnswers allLoad (P.cleanup loaded)) = true
  /\ F.m2m100Translator
       (snd (P.initialize marianAnswers allLoad (P.cleanup loaded))) = true.
Proof.
  split; [reflexivity|].
  destruct (FastPipelineFacts.initialize_loads marianAnswers allLoad
              (P.cleanup loaded) eq_refl)
    as [H1 [_ [_ [_ [_ [_ [_ [H2 _]]]]]]]].
  split; [exact H1|]. exact (proj1 (H2 H1)).
Defined.


End MoreInstances.
